(** * ExplosionEngine.jsx: a shallow embedding and its verified properties

    The development follows [src/ExplosionEngine.jsx] component by
    component: [ExplosionParticle], [SmokeParticle], [FallingWreckage],
    [Explosion], [useExplosionManager], [CameraShake], the easing functions,
    [ShockwaveRing], [ExplosionFlash], [DelayedExplosion], and
    [ExplosionRenderer] as [DemoScene] wires it to the manager.  Every
    component is modelled by

    - a record for its props,
    - a record for what it keeps between frames ([useRef] cells, [useState]
      cells and the three.js objects it owns), and
    - one function per [useEffect] / [useFrame] / callback body, in explicit
      state-passing style.

    Conventions of the embedding:

    - JavaScript numbers are modelled by [JS.num]: an exact rational, the
      negative zero, or one of the three special values [+Infinity],
      [-Infinity], [NaN].  Rounding of binary64 arithmetic is not modelled.
      A zero that is given keeps its sign ([JS.NZero] is [-0], [JS.Fin 0]
      is [+0]); a zero that a product or a quotient computes is returned
      as [JS.Fin 0] whatever its sign, which no division of the source
      sees.  Counts,
      identifiers and millisecond clock readings, which the source only
      ever handles as integers, are in [Z].
    - [Date.now()] is passed to each body as the argument [now : Z]; the
      frame delta of [useFrame] is the argument [delta].
    - [Math.random()] reads a tape of rationals through the monad [Rand];
      the order of the draws is the evaluation order of the source.
    - A frame function returns, next to the new state, the calls it made
      of the callback it got through its props ([onComplete],
      [onGroundHit]).  A [setState] call made during a frame is visible to
      the following frame when React has rendered in between; the runs of
      [FallingWreckage] and of the scene take that render for granted,
      [Explosion.run] has frames and renders as separate events.
    - [meshRef.current] and [groupRef.current] are set for as long as the
      mesh or group is rendered, so the guards on them are not modelled
      apart from the one that coincides with [hasLanded].
    - [Vector3.normalize] of three.js is not a rational function; the body
      that uses it takes it as a parameter. *)

From Stdlib Require Import ZArith QArith Qround Lqa Lia List Sorted String Bool.
Import ListNotations.

Local Open Scope Z_scope.

(* ====================================================================== *)
(** ** JavaScript numbers *)
(* ====================================================================== *)

Module JS.

(** [Fin q] is the finite number of value [q]; [NZero] is the negative
    zero [-0], which a caller can pass as any other number and which only a
    division tells from [+0].  A [Fin 0] that is given, as a prop or as a
    literal, is the positive zero; a [Fin 0] that [mul] or [div] returns is
    a zero of either sign. *)
Inductive num : Type :=
| Fin (q : Q)
| NZero
| PInf
| NInf
| NaN.

Definition of_Z (z : Z) : num := Fin (inject_Z z).

Definition Qlt_bool (a b : Q) : bool := negb (Qle_bool b a).

(** [a + b]; [-0 + b] is [b], so [-0 + -0] is [-0] and [-0 + 0] is [+0]. *)
Definition add (a b : num) : num :=
  match a, b with
  | NaN, _ | _, NaN => NaN
  | NZero, other | other, NZero => other
  | Fin p, Fin q => Fin (p + q)
  | PInf, NInf | NInf, PInf => NaN
  | PInf, _ | _, PInf => PInf
  | NInf, _ | _, NInf => NInf
  end.

(** [a - b]; [-0 - 0] is [-0], [-0 - -0] and [0 - -0] are [+0]. *)
Definition sub (a b : num) : num :=
  match a, b with
  | NaN, _ | _, NaN => NaN
  | Fin p, Fin q => Fin (p - q)
  | NZero, NZero => Fin 0
  | NZero, Fin q => if Qeq_bool q 0 then NZero else Fin (- q)
  | Fin p, NZero => Fin p
  | PInf, PInf | NInf, NInf => NaN
  | PInf, _ | _, NInf => PInf
  | NInf, _ | _, PInf => NInf
  end.

(** The infinity with the sign of [q], [NaN] for zero. *)
Definition signed_inf (q : Q) (pos : num) (negv : num) : num :=
  match q ?= 0 with
  | Gt => pos
  | Lt => negv
  | Eq => NaN
  end%Q.

(** [a * b].  A zero product of two finite factors is returned as [Fin 0]
    whatever the signs of the factors: the source divides by props, by
    constants and by a lifetime drawn from [0.8, 1.5), never by a number
    that can be a computed zero, so the sign of such a zero is not
    observed. *)
Definition mul (a b : num) : num :=
  match a, b with
  | NaN, _ | _, NaN => NaN
  | Fin p, Fin q => Fin (p * q)
  | NZero, NZero => Fin 0
  | NZero, Fin q | Fin q, NZero => if Qlt_bool q 0 then Fin 0 else NZero
  | NZero, (PInf | NInf) | (PInf | NInf), NZero => NaN
  | Fin p, PInf | PInf, Fin p => signed_inf p PInf NInf
  | Fin p, NInf | NInf, Fin p => signed_inf p NInf PInf
  | PInf, PInf | NInf, NInf => PInf
  | PInf, NInf | NInf, PInf => NInf
  end.

(** [a / b]: a finite non-zero value over a zero is an infinity, whose sign
    is the sign of the value over [+0] and the opposite one over [-0]; a
    zero over a zero is [NaN]; a finite value over an infinity is zero. *)
Definition div (a b : num) : num :=
  match a, b with
  | NaN, _ | _, NaN => NaN
  | Fin p, Fin q =>
      if Qeq_bool q 0 then signed_inf p PInf NInf else Fin (p / q)
  | Fin p, NZero => signed_inf p NInf PInf
  | NZero, Fin q =>
      match q ?= 0 with Gt => NZero | Lt => Fin 0 | Eq => NaN end%Q
  | NZero, NZero => NaN
  | NZero, PInf => NZero
  | NZero, NInf => Fin 0
  | Fin _, (PInf | NInf) => Fin 0
  | PInf, Fin q => if Qle_bool 0 q then PInf else NInf
  | NInf, Fin q => if Qle_bool 0 q then NInf else PInf
  | PInf, NZero => NInf
  | NInf, NZero => PInf
  | (PInf | NInf), (PInf | NInf) => NaN
  end.

(** [a <= b]; every comparison with [NaN] is false, and the two zeros
    compare as equal. *)
Definition leb (a b : num) : bool :=
  match a, b with
  | NaN, _ | _, NaN => false
  | Fin p, Fin q => Qle_bool p q
  | NZero, Fin q => Qle_bool 0 q
  | Fin p, NZero => Qle_bool p 0
  | NZero, NZero => true
  | NInf, _ | _, PInf => true
  | _, _ => false
  end.

(** [a < b] *)
Definition ltb (a b : num) : bool :=
  match a, b with
  | NaN, _ | _, NaN => false
  | Fin p, Fin q => Qlt_bool p q
  | NZero, Fin q => Qlt_bool 0 q
  | Fin p, NZero => Qlt_bool p 0
  | NZero, NZero => false
  | NInf, NInf | PInf, PInf => false
  | NInf, _ | _, PInf => true
  | _, _ => false
  end.

(** [a >= b] and [a > b] *)
Definition geb (a b : num) : bool := leb b a.
Definition gtb (a b : num) : bool := ltb b a.

(** [Math.max(a, b)] and [Math.min(a, b)]: [NaN] if either argument is;
    [+0] counts as larger than [-0]. *)
Definition max (a b : num) : num :=
  match a, b with
  | NaN, _ | _, NaN => NaN
  | NZero, Fin q | Fin q, NZero => if Qle_bool 0 q then Fin q else NZero
  | _, _ => if leb a b then b else a
  end.

Definition min (a b : num) : num :=
  match a, b with
  | NaN, _ | _, NaN => NaN
  | NZero, Fin q | Fin q, NZero => if Qle_bool 0 q then NZero else Fin q
  | _, _ => if leb a b then a else b
  end.

(** [Math.floor] *)
Definition floor (a : num) : num :=
  match a with
  | Fin q => Fin (inject_Z (Qfloor q))
  | other => other
  end.

(** [a === b] on numbers: [NaN] equals nothing, [-0] equals [+0]. *)
Definition eqb (a b : num) : bool :=
  match a, b with
  | Fin p, Fin q => Qeq_bool p q
  | NZero, Fin q | Fin q, NZero => Qeq_bool q 0
  | NZero, NZero | PInf, PInf | NInf, NInf => true
  | _, _ => false
  end.

(** Numbers up to the value of the rational they hold; the two zeros have
    the same value. *)
Definition eqv (a b : num) : Prop :=
  match a, b with
  | Fin p, Fin q => (p == q)%Q
  | NZero, Fin q | Fin q, NZero => (q == 0)%Q
  | NZero, NZero | PInf, PInf | NInf, NInf | NaN, NaN => True
  | _, _ => False
  end.

End JS.

Import JS.

Declare Scope js_scope.
Delimit Scope js_scope with js.
Bind Scope js_scope with JS.num.
Infix "+" := JS.add : js_scope.
Infix "-" := JS.sub : js_scope.
Infix "*" := JS.mul : js_scope.
Infix "/" := JS.div : js_scope.
Notation "# q" := (JS.Fin q%Q) (at level 5, q at level 1, format "# q") : js_scope.

(* ====================================================================== *)
(** ** three.js [Vector3] *)
(* ====================================================================== *)

Record Vector3 : Type := mkVector3 { x : num; y : num; z : num }.

Module Vec.

(** [v.multiplyScalar(s)] *)
Definition multiplyScalar (v : Vector3) (s : num) : Vector3 :=
  mkVector3 (x v * s)%js (y v * s)%js (z v * s)%js.

(** [v.add(w)] *)
Definition add (v w : Vector3) : Vector3 :=
  mkVector3 (x v + x w)%js (y v + y w)%js (z v + z w)%js.

(** [v.setScalar(s)] *)
Definition setScalar (s : num) : Vector3 := mkVector3 s s s.

(** [v.x = a], [v.y = a] *)
Definition set_x (v : Vector3) (a : num) : Vector3 := mkVector3 a (y v) (z v).
Definition set_y (v : Vector3) (a : num) : Vector3 := mkVector3 (x v) a (z v).

(** [v.toArray()] *)
Definition toArray (v : Vector3) : list num := [x v; y v; z v].

(** [new Vector3(...arr)]: a missing component is the constructor's
    default [0]. *)
Definition of_array (arr : list num) : Vector3 :=
  mkVector3 (nth 0 arr (#0)%js) (nth 1 arr (#0)%js) (nth 2 arr (#0)%js).

Definition zero : Vector3 := mkVector3 (#0)%js (#0)%js (#0)%js.

End Vec.

(* ====================================================================== *)
(** ** [Math.random] *)
(* ====================================================================== *)

(** The random source: [tape n] is the value of the [n]-th call of
    [Math.random()], [cursor] counts the calls made so far. *)
Record Rng : Type := mkRng { tape : nat -> Q; cursor : nat }.

Definition Rand (A : Type) : Type := Rng -> A * Rng.

Definition ret {A} (a : A) : Rand A := fun g => (a, g).

Definition bind {A B} (m : Rand A) (k : A -> Rand B) : Rand B :=
  fun g => let (a, g') := m g in k a g'.

Notation "x <- m ;; k" := (bind m (fun x => k))
  (at level 61, m at next level, right associativity).

(** [Math.random()] *)
Definition Math_random : Rand num :=
  fun g => (Fin (tape g (cursor g)), mkRng (tape g) (S (cursor g))).

(** The tape only holds values of [Math.random()]'s range. *)
Definition unit_interval (t : nat -> Q) : Prop :=
  forall n, (0 <= t n /\ t n < 1)%Q.

(** [const randomRange = (min, max) => Math.random() * (max - min) + min],
    in exact arithmetic: binary64 rounds the result, which can so reach
    [max], and [max - min] overflows for bounds further apart than
    [Number.MAX_VALUE]. *)
Definition randomRange (min max : num) : Rand num :=
  r <- Math_random ;;
  ret (r * (max - min) + min)%js.

(** [const randomSpread = (spread) => (Math.random() - 0.5) * 2 * spread] *)
Definition randomSpread (spread : num) : Rand num :=
  r <- Math_random ;;
  ret ((r - #0.5) * #2 * spread)%js.

(** A [for (let i = 0; i < n; i++)] loop whose body draws random numbers
    and updates an accumulator. *)
Fixpoint for_loop {S} (count : nat) (i : Z) (body : Z -> S -> Rand S) (s : S)
  : Rand S :=
  match count with
  | O => ret s
  | Datatypes.S count' => s' <- body i s ;; for_loop count' (i + 1) body s'
  end.

(** [arr.map(f)] with a callback that draws random numbers: the callback
    runs once per element, in index order. *)
Fixpoint map_rand {A B} (f : A -> Rand B) (l : list A) : Rand (list B) :=
  match l with
  | [] => ret []
  | a :: l' => b <- f a ;; bs <- map_rand f l' ;; ret (b :: bs)
  end.

(* ====================================================================== *)
(** ** [EXPLOSION_CONFIG] *)
(* ====================================================================== *)

Local Open Scope string_scope.
Local Open Scope list_scope.

(** One entry of [EXPLOSION_CONFIG.CLASSES].  The three chain fields are
    present on [BOSS] only; an absent [chainExplosions] is falsy, and the
    other two are read only behind it. *)
Record ClassConfig : Type := mkClassConfig {
  name : string;
  particleCount : Z;
  shockwaveScale : num;
  duration : Z;
  wreckagePieces : Z;
  wreckageScale : list num;
  cameraShake : num;
  lightIntensity : num;
  lightDistance : num;
  chainExplosions : bool;
  chainCount : Z;
  chainDelay : Z
}.

Module CLASSES.

Definition SMALL : ClassConfig :=
  mkClassConfig "SMALL" 15 (#3)%js 800 1 [#0.4; #0.25; #0.6]%js
    (#0.1)%js (#8)%js (#15)%js false 0 0.

Definition MEDIUM : ClassConfig :=
  mkClassConfig "MEDIUM" 30 (#5)%js 1000 2 [#0.6; #0.35; #0.9]%js
    (#0.25)%js (#15)%js (#25)%js false 0 0.

Definition LARGE : ClassConfig :=
  mkClassConfig "LARGE" 50 (#8)%js 1400 4 [#1.0; #0.5; #1.4]%js
    (#0.5)%js (#25)%js (#40)%js false 0 0.

Definition BOSS : ClassConfig :=
  mkClassConfig "BOSS" 100 (#15)%js 2500 8 [#1.5; #0.8; #2.0]%js
    (#1.0)%js (#50)%js (#60)%js true 5 200.

(** [EXPLOSION_CONFIG.CLASSES[explosionClass]] for a name that is one of
    the four keys or no property of the table at all ([None] is
    [undefined]).  The names of the properties every object inherits
    ("constructor", "toString", ...) are left out: for them the source
    reads a member of [Object.prototype], and what is stated of a scene is
    stated for explosions with a class of the table. *)
Definition lookup (explosionClass : string) : option ClassConfig :=
  if explosionClass =? "SMALL" then Some SMALL
  else if explosionClass =? "MEDIUM" then Some MEDIUM
  else if explosionClass =? "LARGE" then Some LARGE
  else if explosionClass =? "BOSS" then Some BOSS
  else None.

End CLASSES.

Module WRECKAGE.
Definition GRAVITY : num := (#15)%js.
Definition ROTATION_SPEED_min : num := (#2)%js.
Definition ROTATION_SPEED_max : num := (#8)%js.
Definition INITIAL_VELOCITY_min : num := (#3)%js.
Definition INITIAL_VELOCITY_max : num := (#8)%js.
Definition SMOKE_EMIT_RATE : num := (#0.03)%js.
Definition GROUND_Y : num := (#(-5))%js.
End WRECKAGE.

Module PARTICLES.
Definition LIFETIME_min : num := (#0.3)%js.
Definition LIFETIME_max : num := (#1.2)%js.
Definition SPEED_min : num := (#8)%js.
Definition SPEED_max : num := (#25)%js.
Definition SIZE_min : num := (#0.1)%js.
Definition SIZE_max : num := (#0.6)%js.
Definition COLORS_CORE : list string := ["#ffffff"; "#ffffa0"; "#ffff00"].
Definition COLORS_FIRE : list string := ["#ff8800"; "#ff4400"; "#ff2200"].
Definition COLORS_SMOKE : list string :=
  ["#444444"; "#333333"; "#222222"; "#111111"].
Definition COLORS_SPARK : list string := ["#ffff88"; "#ffaa44"; "#ff6600"].
End PARTICLES.

Module SHOCKWAVE.
Definition DURATION : Z := 400.
Definition MAX_OPACITY : num := (#0.8)%js.
Definition RING_COUNT : Z := 2.
End SHOCKWAVE.

(* ====================================================================== *)
(** ** [ExplosionParticle] *)
(* ====================================================================== *)

Module ExplosionParticle.

Record Props : Type := mkProps {
  startPosition : Vector3;
  direction : Vector3;
  speed : num;
  size : num;
  color : option string;
  lifetime : num;
  type : string
}.

(** The mesh ([position], [scale], [material.opacity]) and the two refs. *)
Record State : Type := mkState {
  position : Vector3;
  scale : Vector3;
  opacity : num;
  startTime : Z;
  velocity : Vector3
}.

(** First render: [startTime = useRef(Date.now())],
    [velocity = useRef(direction.clone().multiplyScalar(speed))], the mesh
    at [startPosition] with the material's [opacity={1}]. *)
Definition mount (now : Z) (p : Props) : State :=
  mkState (startPosition p) (Vec.setScalar (#1)%js) (#1)%js now
    (Vec.multiplyScalar (direction p) (speed p)).

(** [const elapsed = (Date.now() - startTime.current) / 1000;
     const progress = elapsed / lifetime;] *)
Definition elapsed (now : Z) (s : State) : num :=
  (JS.of_Z (now - startTime s) / #1000)%js.

Definition progress (now : Z) (p : Props) (s : State) : num :=
  (elapsed now s / lifetime p)%js.

(** The drag-and-gravity block of the frame callback. *)
Definition drag (ty : string) (delta : num) (v : Vector3) : Vector3 :=
  if ty =? "fire" then
    let v1 := Vec.multiplyScalar v (#0.96)%js in
    Vec.set_y v1 (y v1 + delta * #2)%js
  else if ty =? "spark" then
    let v1 := Vec.multiplyScalar v (#0.98)%js in
    Vec.set_y v1 (y v1 - delta * #15)%js
  else if ty =? "smoke" then
    let v1 := Vec.multiplyScalar v (#0.92)%js in
    Vec.set_y v1 (y v1 + delta * #1)%js
  else v.

(** The [useFrame] callback.  The boolean tells whether [onComplete] was
    called. *)
Definition frame (now : Z) (delta : num) (p : Props) (s : State)
  : State * bool :=
  let progress := progress now p s in
  if JS.geb progress (#1)%js then (s, true)
  else
    let position' :=
      Vec.add (position s) (Vec.multiplyScalar (velocity s) delta) in
    let velocity' := drag (type p) delta (velocity s) in
    let scale := (size p * (#1 - progress * #0.7))%js in
    let scale' := Vec.setScalar (JS.max (#0.01)%js scale) in
    let opacity' := JS.max (#0)%js (#1 - progress)%js in
    (mkState position' scale' opacity' (startTime s) velocity', false).

(** A sequence of frames, each with its clock reading and delta; the
    number returned counts the calls of [onComplete]. *)
Fixpoint run (ticks : list (Z * num)) (p : Props) (s : State) : State * nat :=
  match ticks with
  | [] => (s, O)
  | (now, delta) :: rest =>
      let (s1, fired) := frame now delta p s in
      let (s2, n) := run rest p s1 in
      (s2, ((if fired then 1 else 0) + n)%nat)
  end.

End ExplosionParticle.

(* ====================================================================== *)
(** ** [SmokeParticle] (the smoke trail of a wreckage piece) *)
(* ====================================================================== *)

Module SmokeParticle.

Record Props : Type := mkProps {
  position0 : Vector3;
  velocity0 : Vector3;
  size : num
}.

Record State : Type := mkState {
  position : Vector3;
  scale : Vector3;
  opacity : num;
  startTime : Z;
  vel : Vector3
}.

Definition mount (now : Z) (p : Props) : State :=
  mkState (position0 p) (Vec.setScalar (#1)%js) (#0.6)%js now (velocity0 p).

(** [const elapsed = (Date.now() - startTime.current) / 1000;
     const progress = elapsed / lifetime;] *)
Definition progress (now : Z) (lifetime : num) (s : State) : num :=
  (JS.of_Z (now - startTime s) / #1000 / lifetime)%js.

(** The [useFrame] callback; [lifetime] is the value
    [randomRange(0.8, 1.5)] drawn by the render the callback belongs to. *)
Definition frame (now : Z) (delta : num) (lifetime : num) (p : Props)
  (s : State) : State * bool :=
  let progress := progress now lifetime s in
  if JS.geb progress (#1)%js then (s, true)
  else
    let position' := Vec.add (position s) (Vec.multiplyScalar (vel s) delta) in
    let v1 := Vec.multiplyScalar (vel s) (#0.95)%js in
    let vel' := Vec.set_y v1 (y v1 + delta * #0.8)%js in
    let growPhase := JS.min (progress * #3)%js (#1)%js in
    let shrinkPhase := JS.max (#0)%js ((progress - #0.5) * #2)%js in
    let scale :=
      (size p * (#1 + growPhase * #0.5) * (#1 - shrinkPhase * #0.8))%js in
    let scale' := Vec.setScalar (JS.max (#0.01)%js scale) in
    let opacity' := (#0.6 * (#1 - progress))%js in
    (mkState position' scale' opacity' (startTime s) vel', false).

End SmokeParticle.

(* ====================================================================== *)
(** ** [FallingWreckage] *)
(* ====================================================================== *)

Module FallingWreckage.

Record Props : Type := mkProps {
  startPosition : Vector3;
  forwardVector : Vector3;
  scale : list num;
  groundY : num
}.

(** An element of the [smokeParticles] state. *)
Record Smoke : Type := mkSmoke {
  smoke_id : num;
  smoke_position : Vector3;
  smoke_velocity : Vector3;
  smoke_size : num
}.

(** [position] and [rotation] belong to the group the piece is drawn in:
    they are coordinates in the frame of the parent of that group. *)
Record State : Type := mkState {
  position : Vector3;
  rotation : Vector3;
  velocity : Vector3;
  rotationSpeed : Vector3;
  lastSmokeTime : Z;
  smokeParticles : list Smoke;
  hasLanded : bool
}.

(** The state after the first render, for the velocity and the rotation
    speed that the initialiser of the [physics] ref has drawn
    ([createRandomDirection] needs [Math.sin] and [normalize]; every
    statement below holds for whatever it returns). *)
Definition mounted (p : Props) (velocity0 rotationSpeed0 : Vector3) : State :=
  mkState (startPosition p) Vec.zero velocity0 rotationSpeed0 0 [] false.

(** The smoke-trail block of the frame callback. *)
Definition emit_smoke (now : Z) (at_position : Vector3) (s : State)
  : Rand State :=
  if JS.gtb (JS.of_Z (now - lastSmokeTime s))
            (WRECKAGE.SMOKE_EMIT_RATE * #1000)%js
  then
    vx <- randomSpread (#1)%js ;;
    vy <- randomRange (#0.5)%js (#1.5)%js ;;
    vz <- randomSpread (#1)%js ;;
    r <- Math_random ;;
    sz <- randomRange (#0.3)%js (#0.6)%js ;;
    let smoke :=
      mkSmoke (JS.of_Z now + r)%js at_position (mkVector3 vx vy vz) sz in
    ret (mkState (position s) (rotation s) (velocity s) (rotationSpeed s)
           now (smokeParticles s ++ [smoke]) (hasLanded s))
  else ret s.

(** The [useFrame] callback.  The list returned holds the argument of each
    call of [onGroundHit]. *)
Definition frame (now : Z) (delta : num) (p : Props) (s : State)
  : Rand (State * list Vector3) :=
  if hasLanded s then ret (s, [])
  else
    (* Apply gravity *)
    let v := velocity s in
    let velocity' := Vec.set_y v (y v - WRECKAGE.GRAVITY * delta)%js in
    (* Update position *)
    let position' := Vec.add (position s) (Vec.multiplyScalar velocity' delta) in
    (* Update rotation *)
    let rotation' :=
      Vec.add (rotation s) (Vec.multiplyScalar (rotationSpeed s) delta) in
    let s1 := mkState position' rotation' velocity' (rotationSpeed s)
                (lastSmokeTime s) (smokeParticles s) false in
    (* Emit smoke trail *)
    s2 <- emit_smoke now position' s1 ;;
    (* Check ground collision *)
    if JS.leb (y position') (groundY p) then
      ret (mkState (position s2) (rotation s2) (velocity s2) (rotationSpeed s2)
             (lastSmokeTime s2) (smokeParticles s2) true,
           [position'])
    else ret (s2, []).

(** One frame: clock reading, delta, and the state of the random source
    when the frame starts (renders between two frames draw from it too). *)
Definition Tick : Type := (Z * num * Rng)%type.

(** A sequence of frames; the list collects the [onGroundHit] calls. *)
Fixpoint run (ticks : list Tick) (p : Props) (s : State)
  : State * list Vector3 :=
  match ticks with
  | [] => (s, [])
  | (now, delta, g) :: rest =>
      let (s1, hits) := fst (frame now delta p s g) in
      let (s2, hits') := run rest p s1 in
      (s2, hits ++ hits')
  end.

(** [removeSmoke]:
    [setSmokeParticles(prev => prev.filter(p => p.id !== id))]. *)
Definition removeSmoke (id : num) (s : State) : State :=
  mkState (position s) (rotation s) (velocity s) (rotationSpeed s)
    (lastSmokeTime s)
    (filter (fun sm => negb (JS.eqb (smoke_id sm) id)) (smokeParticles s))
    (hasLanded s).

End FallingWreckage.

(* ====================================================================== *)
(** ** [Explosion] *)
(* ====================================================================== *)

Module Explosion.

Record Props : Type := mkProps {
  position : Vector3;
  forwardVector : Vector3;
  explosionClass : string;
  showWreckage : bool;
  groundY : num
}.

Record ParticleRecord : Type := mkParticle {
  p_id : Z;
  p_direction : Vector3;
  p_speed : num;
  p_size : num;
  p_color : option string;
  p_lifetime : num;
  p_type : string
}.

Record ShockwaveRecord : Type := mkShockwave {
  s_id : Z;
  s_delay : Z;
  s_scale : num
}.

Record WreckageRecord : Type := mkWreckage {
  w_id : Z;
  w_scale : list num
}.

Record ChainRecord : Type := mkChain {
  c_id : Z;
  c_delay : Z;
  c_offset : Vector3
}.

Record SecondaryRecord : Type := mkSecondary {
  e_id : num;
  e_position : Vector3
}.

Record State : Type := mkState {
  particles : list ParticleRecord;
  shockwaves : list ShockwaveRecord;
  wreckage : list WreckageRecord;
  flash : bool;
  secondaryExplosions : list SecondaryRecord;
  chainExplosions_ : list ChainRecord;
  isComplete : bool;
  startTime : Z;
  particleIdCounter : Z
}.

(** [EXPLOSION_CONFIG.CLASSES[explosionClass] || EXPLOSION_CONFIG.CLASSES.MEDIUM] *)
Definition config (p : Props) : ClassConfig :=
  match CLASSES.lookup (explosionClass p) with
  | Some c => c
  | None => CLASSES.MEDIUM
  end.

(** First render: every [useState] at its initial value,
    [startTime = useRef(Date.now())], [particleIdCounter = useRef(0)]. *)
Definition mount (now : Z) : State :=
  mkState [] [] [] true [] [] false now 0.

(** The type of the particle of index [i] among [n]. *)
Definition particle_type (i n : Z) : string :=
  if JS.ltb (JS.of_Z i) (JS.of_Z n * #0.2)%js then "core"
  else if JS.ltb (JS.of_Z i) (JS.of_Z n * #0.6)%js then "fire"
  else if JS.ltb (JS.of_Z i) (JS.of_Z n * #0.8)%js then "spark"
  else "smoke".

Definition colorSet (ty : string) : list string :=
  if ty =? "core" then PARTICLES.COLORS_CORE
  else if ty =? "fire" then PARTICLES.COLORS_FIRE
  else if ty =? "spark" then PARTICLES.COLORS_SPARK
  else PARTICLES.COLORS_SMOKE.

(** [arr[i]] for a number [i]: [undefined] unless [i] is an index. *)
Definition array_get {A} (arr : list A) (i : num) : option A :=
  match i with
  | Fin q =>
      if Qeq_bool q (inject_Z (Qfloor q)) && (0 <=? Qfloor q)%Z
      then nth_error arr (Z.to_nat (Qfloor q))
      else None
  | NZero => nth_error arr 0
  | _ => None
  end.

Section Init.

(** [Vector3.normalize] of three.js. *)
Variable normalize : Vector3 -> Vector3.

(** Body of the particle loop: the accumulator is the list built so far
    and [particleIdCounter.current]. *)
Definition new_particle (cfg : ClassConfig) (i : Z)
  (acc : list ParticleRecord * Z) : Rand (list ParticleRecord * Z) :=
  let ty := particle_type i (particleCount cfg) in
  let colors := colorSet ty in
  dx <- randomSpread (#1)%js ;;
  dy <- randomSpread (#1)%js ;;
  dz <- randomSpread (#1)%js ;;
  let dir := normalize (mkVector3 dx dy dz) in
  sp <- randomRange PARTICLES.SPEED_min PARTICLES.SPEED_max ;;
  sz <- randomRange PARTICLES.SIZE_min PARTICLES.SIZE_max ;;
  r <- Math_random ;;
  lt <- randomRange PARTICLES.LIFETIME_min PARTICLES.LIFETIME_max ;;
  let particle :=
    mkParticle (snd acc) dir
      (sp * (if ty =? "core" then #1.5 else if ty =? "smoke" then #0.3 else #1))%js
      (sz * (if ty =? "core" then #0.5 else if ty =? "smoke" then #2 else #1))%js
      (array_get colors (JS.floor (r * JS.of_Z (Z.of_nat (List.length colors)))%js))
      (lt * (if ty =? "smoke" then #2 else #1))%js
      ty in
  ret (fst acc ++ [particle], snd acc + 1).

Definition new_shockwave (cfg : ClassConfig) (i : Z)
  (acc : list ShockwaveRecord) : Rand (list ShockwaveRecord) :=
  ret (acc ++ [mkShockwave i (i * 80)
                 (shockwaveScale cfg * (#1 - JS.of_Z i * #0.2))%js]).

Definition scaleVariation : num := (#0.3)%js.

(** [config.wreckageScale.map(s => s * randomRange(1 - scaleVariation,
    1 + scaleVariation))] is evaluated inside the object literal. *)
Definition new_wreckage (cfg : ClassConfig) (i : Z)
  (acc : list WreckageRecord) : Rand (list WreckageRecord) :=
  sc <- map_rand
          (fun s =>
             f <- randomRange (#1 - scaleVariation)%js (#1 + scaleVariation)%js ;;
             ret (s * f)%js)
          (wreckageScale cfg) ;;
  ret (acc ++ [mkWreckage i sc]).

Definition new_chain (cfg : ClassConfig) (i : Z)
  (acc : list ChainRecord) : Rand (list ChainRecord) :=
  ox <- randomSpread (#3)%js ;;
  oy <- randomSpread (#2)%js ;;
  oz <- randomSpread (#3)%js ;;
  ret (acc ++ [mkChain i ((i + 1) * chainDelay cfg) (mkVector3 ox oy oz)]).

(** "Create particles": the list and the new value of
    [particleIdCounter.current]. *)
Definition particle_batch (cfg : ClassConfig) (counter : Z)
  : Rand (list ParticleRecord * Z) :=
  for_loop (Z.to_nat (particleCount cfg)) 0 (new_particle cfg) ([], counter).

(** "Create shockwaves" *)
Definition shockwave_batch (cfg : ClassConfig) : Rand (list ShockwaveRecord) :=
  for_loop (Z.to_nat SHOCKWAVE.RING_COUNT) 0 (new_shockwave cfg) [].

(** "Create wreckage" *)
Definition wreckage_batch (cfg : ClassConfig) : Rand (list WreckageRecord) :=
  for_loop (Z.to_nat (wreckagePieces cfg)) 0 (new_wreckage cfg) [].

(** "Boss chain explosions" *)
Definition chain_batch (cfg : ClassConfig) : Rand (list ChainRecord) :=
  for_loop (Z.to_nat (chainCount cfg)) 0 (new_chain cfg) [].

(** The [useEffect] that initialises the explosion. *)
Definition init (cfg : ClassConfig) (showWreckage : bool) (s : State)
  : Rand State :=
  pc <- particle_batch cfg (particleIdCounter s) ;;
  sw <- shockwave_batch cfg ;;
  wr <- (if showWreckage then wreckage_batch cfg else ret (wreckage s)) ;;
  ch <- (if chainExplosions cfg then chain_batch cfg
         else ret (chainExplosions_ s)) ;;
  ret (mkState (fst pc) sw wr (flash s) (secondaryExplosions s) ch
         (isComplete s) (startTime s) (snd pc)).

End Init.

(** The [useFrame] callback ("Check completion"), on the state as the
    render it belongs to has read it.  The boolean tells whether
    [onComplete] was called. *)
Definition frame (now : Z) (cfg : ClassConfig) (s : State) : State * bool :=
  let elapsed := now - startTime s in
  if (elapsed >? duration cfg + 3000)%Z && negb (isComplete s) then
    (mkState (particles s) (shockwaves s) (wreckage s) (flash s)
       (secondaryExplosions s) (chainExplosions_ s) true (startTime s)
       (particleIdCounter s), true)
  else (s, false).

(** [useFrame] calls the callback of the last render, and that callback
    holds the [isComplete] which the render read: [setIsComplete(true)]
    changes what the next render reads, not what the callback at hand
    tests.  Frames and renders are therefore separate events; React need
    not have rendered between two frames. *)
Inductive Event : Type :=
| OnFrame (now : Z)
| OnRender.

Definition with_isComplete (b : bool) (s : State) : State :=
  mkState (particles s) (shockwaves s) (wreckage s) (flash s)
    (secondaryExplosions s) (chainExplosions_ s) b (startTime s)
    (particleIdCounter s).

(** A sequence of frames and renders.  [seen] is the [isComplete] of the
    last render, which the frame callback tests; [s] holds the state cells
    as the [setState] calls have left them; the number counts the calls of
    [onComplete]. *)
Fixpoint run (events : list Event) (cfg : ClassConfig) (seen : bool)
  (s : State) : State * nat :=
  match events with
  | [] => (s, O)
  | OnRender :: rest => run rest cfg (isComplete s) s
  | OnFrame now :: rest =>
      let (s1, fired) := frame now cfg (with_isComplete seen s) in
      let (s2, n) := run rest cfg seen (if fired then s1 else s) in
      (s2, ((if fired then 1 else 0) + n)%nat)
  end.

Definition removeParticle (id : Z) (s : State) : State :=
  mkState (filter (fun p => negb (p_id p =? id)%Z) (particles s))
    (shockwaves s) (wreckage s) (flash s) (secondaryExplosions s)
    (chainExplosions_ s) (isComplete s) (startTime s) (particleIdCounter s).

Definition removeShockwave (id : Z) (s : State) : State :=
  mkState (particles s)
    (filter (fun w => negb (s_id w =? id)%Z) (shockwaves s))
    (wreckage s) (flash s) (secondaryExplosions s)
    (chainExplosions_ s) (isComplete s) (startTime s) (particleIdCounter s).

(** [handleWreckageGroundHit]: the new record's id is
    [Date.now() + Math.random()], here the exact sum; binary64 rounds it, to
    [now + 1] at most. *)
Definition handleWreckageGroundHit (now : Z) (hitPosition : Vector3)
  (s : State) : Rand State :=
  r <- Math_random ;;
  ret (mkState (particles s) (shockwaves s) (wreckage s) (flash s)
         (secondaryExplosions s ++ [mkSecondary (JS.of_Z now + r)%js hitPosition])
         (chainExplosions_ s) (isComplete s) (startTime s)
         (particleIdCounter s)).

(** The props of the [FallingWreckage] rendered for [piece]:
    [startPosition={new Vector3(0, 0, 0)}], [groundY={groundY}]. *)
Definition wreckage_props (p : Props) (piece : WreckageRecord)
  : FallingWreckage.Props :=
  FallingWreckage.mkProps Vec.zero (forwardVector p) (w_scale piece) (groundY p).

(** Everything an [Explosion] renders sits in [<group position={position}>]:
    a child at [local] in that group is at [position + local] in the frame
    of the explosion's parent, which is the scene for an explosion drawn by
    [ExplosionRenderer]. *)
Definition to_parent (p : Props) (local : Vector3) : Vector3 :=
  Vec.add (position p) local.

(** The props of the [ExplosionParticle] rendered for [particle]. *)
Definition particle_props (r : ParticleRecord) : ExplosionParticle.Props :=
  ExplosionParticle.mkProps Vec.zero (p_direction r) (p_speed r) (p_size r)
    (p_color r) (p_lifetime r) (p_type r).

End Explosion.

(* ====================================================================== *)
(** ** [useExplosionManager] *)
(* ====================================================================== *)

Module Manager.

(** An element of the [explosions] state. *)
Record Entry : Type := mkEntry {
  id : Z;
  position : Vector3;
  forwardVector : Vector3;
  explosionClass : string;
  showWreckage : bool;
  groundY : num
}.

Record State : Type := mkState {
  explosions : list Entry;
  explosionIdRef : Z
}.

(** First render: [useState([])], [useRef(0)]. *)
Definition initial : State := mkState [] 0.

(** A position is a [Vector3] or an array. *)
Definition VecArg : Type := (Vector3 + list num)%type.

(** [v instanceof Vector3 ? v.clone() : new Vector3(...v)] *)
Definition to_vector (v : VecArg) : Vector3 :=
  match v with
  | inl v => v
  | inr arr => Vec.of_array arr
  end.

(** The argument object of [triggerExplosion]; [None] is an absent
    property, which takes the default of the destructuring pattern. *)
Record Args : Type := mkArgs {
  a_position : VecArg;
  a_forwardVector : option VecArg;
  a_explosionClass : option string;
  a_showWreckage : option bool;
  a_groundY : option num
}.

Definition default {A} (o : option A) (d : A) : A :=
  match o with
  | Some a => a
  | None => d
  end.

Definition triggerExplosion (a : Args) (s : State) : Z * State :=
  let id := explosionIdRef s in
  let entry :=
    mkEntry id
      (to_vector (a_position a))
      (to_vector (default (a_forwardVector a)
                    (inl (mkVector3 (#0)%js (#0)%js (#(-1))%js))))
      (default (a_explosionClass a) "MEDIUM")
      (default (a_showWreckage a) true)
      (default (a_groundY a) WRECKAGE.GROUND_Y) in
  (id, mkState (explosions s ++ [entry]) (id + 1)).

Definition removeExplosion (id0 : Z) (s : State) : State :=
  mkState (filter (fun e => negb (id e =? id0)%Z) (explosions s))
    (explosionIdRef s).

Definition clearAllExplosions (s : State) : State :=
  mkState [] (explosionIdRef s).

(** The operations a client can perform on the manager. *)
Inductive Op : Type :=
| Trigger (a : Args)
| Remove (id0 : Z)
| ClearAll.

(** Runs the operations in order; the list holds the id returned by each
    [triggerExplosion], oldest first. *)
Fixpoint run (ops : list Op) (s : State) : list Z * State :=
  match ops with
  | [] => ([], s)
  | Trigger a :: rest =>
      let (i, s1) := triggerExplosion a s in
      let (ids, s2) := run rest s1 in
      (i :: ids, s2)
  | Remove id0 :: rest => run rest (removeExplosion id0 s)
  | ClearAll :: rest => run rest (clearAllExplosions s)
  end.

(** The props [ExplosionRenderer] gives the [Explosion] of an entry. *)
Definition renderer_props (e : Entry) : Explosion.Props :=
  Explosion.mkProps (Vec.of_array (Vec.toArray (position e)))
    (forwardVector e) (explosionClass e) (showWreckage e) (groundY e).

End Manager.

(* ====================================================================== *)
(** ** [CameraShake] *)
(* ====================================================================== *)

Module CameraShake.

Record Props : Type := mkProps {
  intensity : num;
  duration : num
}.

(** The two refs and [camera.position]; [None] is [null]. *)
Record State : Type := mkState {
  startTime : option Z;
  originalPosition : option Vector3;
  camera : Vector3
}.

(** The [useEffect] on [intensity]. *)
Definition effect (now : Z) (p : Props) (s : State) : State :=
  if JS.gtb (intensity p) (#0)%js
  then mkState (Some now) (Some (camera s)) (camera s)
  else s.

(** [!startTime.current]: [null] and [0] are falsy. *)
Definition truthy_time (t : option Z) : option Z :=
  match t with
  | Some t0 => if (t0 =? 0)%Z then None else Some t0
  | None => None
  end.

(** The [useFrame] callback. *)
Definition frame (now : Z) (p : Props) (s : State) : Rand State :=
  match truthy_time (startTime s), originalPosition s with
  | Some t0, Some original =>
      let elapsed := JS.of_Z (now - t0) in
      let progress := (elapsed / duration p)%js in
      if JS.geb progress (#1)%js then
        ret (mkState None (originalPosition s) original)
      else
        let shake := (intensity p * (#1 - progress))%js in
        dx <- randomSpread shake ;;
        let camera1 := Vec.set_x (camera s) (x original + dx)%js in
        dy <- randomSpread shake ;;
        let camera2 := Vec.set_y camera1 (y original + dy)%js in
        ret (mkState (startTime s) (originalPosition s) camera2)
  | _, _ => ret s
  end.

(** The shake is running: both refs are set. *)
Definition active (s : State) : bool :=
  match truthy_time (startTime s), originalPosition s with
  | Some _, Some _ => true
  | _, _ => false
  end.

End CameraShake.

(* ====================================================================== *)
(** ** Easing functions *)
(* ====================================================================== *)

Module Easing.

(** [const easeOutQuad = (t) => 1 - (1 - t) * (1 - t)] *)
Definition easeOutQuad (t : num) : num := (#1 - (#1 - t) * (#1 - t))%js.

(** [const easeInQuad = (t) => t * t] *)
Definition easeInQuad (t : num) : num := (t * t)%js.

(** [const easeOutExpo = (t) => t === 1 ? 1 : 1 - Math.pow(2, -10 * t)];
    [pow2 e] stands for [Math.pow(2, e)], which is not a rational
    function. *)
Definition easeOutExpo (pow2 : num -> num) (t : num) : num :=
  if JS.eqb t (#1)%js then (#1)%js else (#1 - pow2 (#(-10) * t))%js.

(** [MathUtils.lerp(x, y, t)] of three.js: [(1 - t) * x + t * y]. *)
Definition lerp (x y t : num) : num := ((#1 - t) * x + t * y)%js.

End Easing.

(* ====================================================================== *)
(** ** [ShockwaveRing] *)
(* ====================================================================== *)

Module ShockwaveRing.

Record Props : Type := mkProps {
  position : Vector3;
  maxScale : num;
  duration : num;
  delay : Z
}.

(** The ring mesh: it is rendered, and [meshRef.current] set, only once
    [active] is true. *)
Record Mesh : Type := mkMesh {
  scale : Vector3;
  opacity : num
}.

Record State : Type := mkState {
  startTime : option Z;
  active : bool;
  mesh : option Mesh
}.

(** First render: [startTime = useRef(null)], [useState(false)], and
    [if (!active) return null]. *)
Definition mount : State := mkState None false None.

(** The callback given to [setTimeout(..., delay)], followed by the render
    that [setActive(true)] causes: the mesh appears with the material's
    [opacity={MAX_OPACITY}]. *)
Definition timeout (now : Z) (s : State) : State :=
  mkState (Some now) true
    (match mesh s with
     | Some m => Some m
     | None => Some (mkMesh (Vec.setScalar (#1)%js) SHOCKWAVE.MAX_OPACITY)
     end).

(** [!startTime.current]: [null] and [0] are falsy. *)
Definition truthy_time (t : option Z) : option Z :=
  match t with
  | Some t0 => if (t0 =? 0)%Z then None else Some t0
  | None => None
  end.

(** The [useFrame] callback; the boolean tells whether [onComplete] was
    called. *)
Definition frame (now : Z) (p : Props) (s : State) : State * bool :=
  match mesh s, active s, truthy_time (startTime s) with
  | Some _, true, Some t0 =>
      let elapsed := JS.of_Z (now - t0) in
      let progress := (elapsed / duration p)%js in
      if JS.geb progress (#1)%js then (s, true)
      else
        (* Expand ring *)
        let scale :=
          Easing.lerp (#0.1)%js (maxScale p) (Easing.easeOutQuad progress) in
        (* Fade out *)
        let opacity :=
          (SHOCKWAVE.MAX_OPACITY * (#1 - Easing.easeInQuad progress))%js in
        (mkState (startTime s) (active s)
           (Some (mkMesh (mkVector3 scale scale (#1)%js) opacity)),
         false)
  | _, _, _ => (s, false)
  end.

End ShockwaveRing.

(* ====================================================================== *)
(** ** [ExplosionFlash] *)
(* ====================================================================== *)

Module ExplosionFlash.

Record Props : Type := mkProps {
  position : Vector3;
  scale : num;
  duration : num
}.

(** The mesh ([scale], [material.opacity]), the light and the ref. *)
Record State : Type := mkState {
  mesh_scale : Vector3;
  opacity : num;
  light_intensity : num;
  startTime : Z
}.

(** First render: [startTime = useRef(Date.now())], the material's
    [opacity={1}], the light's [intensity={30}]. *)
Definition mount (now : Z) : State :=
  mkState (Vec.setScalar (#1)%js) (#1)%js (#30)%js now.

Definition progress (now : Z) (p : Props) (s : State) : num :=
  (JS.of_Z (now - startTime s) / duration p)%js.

(** The [useFrame] callback; [pow2 e] stands for [Math.pow(2, e)]. *)
Definition frame (pow2 : num -> num) (now : Z) (p : Props) (s : State)
  : State * bool :=
  let progress := progress now p s in
  if JS.geb progress (#1)%js then (s, true)
  else
    (* Rapid expansion then fade *)
    let expansionProgress := JS.min (progress * #4)%js (#1)%js in
    let currentScale :=
      (scale p * Easing.easeOutExpo pow2 expansionProgress)%js in
    (* Fade *)
    let opacity' := (#1 - Easing.easeInQuad progress)%js in
    (* Light fade *)
    let light' := (#30 * (#1 - progress))%js in
    (mkState (Vec.setScalar currentScale) opacity' light' (startTime s), false).

End ExplosionFlash.

(* ====================================================================== *)
(** ** [DelayedExplosion] *)
(* ====================================================================== *)

Module DelayedExplosion.

Record Props : Type := mkProps {
  position : Manager.VecArg;
  delay : Z;
  explosionClass : string;
  showWreckage : bool
}.

(** The [triggered] state: [false] at the first render, set by the callback
    given to [setTimeout(..., delay)]. *)
Definition mount : bool := false.
Definition timeout (triggered : bool) : bool := true.

(** What the component renders: nothing, or an [Explosion] with the
    defaults of its parameter list for [forwardVector] and [groundY] and no
    [onComplete]. *)
Definition render (p : Props) (triggered : bool) : option Explosion.Props :=
  if triggered then
    Some (Explosion.mkProps (Manager.to_vector (position p))
            (mkVector3 (#0)%js (#0)%js (#(-1))%js)
            (explosionClass p) (showWreckage p) WRECKAGE.GROUND_Y)
  else None.

End DelayedExplosion.

(* ====================================================================== *)
(** ** What an [Explosion] renders *)
(* ====================================================================== *)

Module ExplosionRender.

(** [<ExplosionFlash position={[0, 0, 0]} scale={config.shockwaveScale * 0.5}
     duration={200} onComplete={() => setFlash(false)} />] *)
Definition flash_props (cfg : ClassConfig) : ExplosionFlash.Props :=
  ExplosionFlash.mkProps Vec.zero (shockwaveScale cfg * #0.5)%js (#200)%js.

Definition flash_complete (s : Explosion.State) : Explosion.State :=
  Explosion.mkState (Explosion.particles s) (Explosion.shockwaves s)
    (Explosion.wreckage s) false (Explosion.secondaryExplosions s)
    (Explosion.chainExplosions_ s) (Explosion.isComplete s)
    (Explosion.startTime s) (Explosion.particleIdCounter s).

(** The props of the [ShockwaveRing] rendered for [wave]. *)
Definition shockwave_props (wave : Explosion.ShockwaveRecord)
  : ShockwaveRing.Props :=
  ShockwaveRing.mkProps Vec.zero (Explosion.s_scale wave)
    (JS.of_Z SHOCKWAVE.DURATION) (Explosion.s_delay wave).

(** The props of the [DelayedExplosion] rendered for [chain]. *)
Definition chain_props (chain : Explosion.ChainRecord)
  : DelayedExplosion.Props :=
  DelayedExplosion.mkProps (inl (Explosion.c_offset chain))
    (Explosion.c_delay chain) "SMALL" false.

(** The props of the [Explosion] rendered for the secondary record [exp]:
    [position={exp.position.toArray()}], the defaults otherwise. *)
Definition secondary_props (exp : Explosion.SecondaryRecord)
  : Explosion.Props :=
  Explosion.mkProps (Vec.of_array (Vec.toArray (Explosion.e_position exp)))
    (mkVector3 (#0)%js (#0)%js (#(-1))%js) "SMALL" false WRECKAGE.GROUND_Y.

(** The [onComplete] of the secondary explosion [exp]:
    [setSecondaryExplosions(prev => prev.filter(e => e.id !== exp.id))]. *)
Definition secondary_complete (exp : Explosion.SecondaryRecord)
  (s : Explosion.State) : Explosion.State :=
  Explosion.mkState (Explosion.particles s) (Explosion.shockwaves s)
    (Explosion.wreckage s) (Explosion.flash s)
    (filter (fun e => negb (JS.eqb (Explosion.e_id e) (Explosion.e_id exp)))
       (Explosion.secondaryExplosions s))
    (Explosion.chainExplosions_ s) (Explosion.isComplete s)
    (Explosion.startTime s) (Explosion.particleIdCounter s).

End ExplosionRender.

(* ====================================================================== *)
(** ** [ExplosionRenderer] over [useExplosionManager], as [DemoScene] wires
       them *)
(* ====================================================================== *)

Module Scene.

(** An [Explosion] that [ExplosionRenderer] has rendered for the entry with
    id [key]; React keeps its state for as long as the entry stays in
    [explosions]. *)
Record Instance : Type := mkInstance {
  key : Z;
  props : Explosion.Props;
  state : Explosion.State
}.

Record State : Type := mkState {
  manager : Manager.State;
  instances : list Instance
}.

Definition initial : State := mkState Manager.initial [].

Section Scene.

Variable normalize : Vector3 -> Vector3.

(** The first render of the [Explosion] of entry [e] and its [useEffect]. *)
Definition mount_instance (now : Z) (g : Rng) (e : Manager.Entry) : Instance :=
  let p := Manager.renderer_props e in
  mkInstance (Manager.id e) p
    (fst (Explosion.init normalize (Explosion.config p)
            (Explosion.showWreckage p) (Explosion.mount now) g)).

(** [triggerExplosion(args)] and the render that follows it, at clock
    reading [now]: [ExplosionRenderer] renders a new [Explosion] for the
    entry with the new key. *)
Definition trigger (now : Z) (g : Rng) (a : Manager.Args) (s : State)
  : Z * State :=
  let (id, m) := Manager.triggerExplosion a (manager s) in
  (id,
   mkState m
     (instances s ++
        map (mount_instance now g)
          (filter (fun e => (Manager.id e =? id)%Z) (Manager.explosions m)))).

End Scene.

(** One frame: the [useFrame] callback of every rendered [Explosion]; an
    explosion that calls [onComplete] has
    [onExplosionComplete(explosion.id)], which is [removeExplosion], called
    for it, and the render that follows drops it. *)
Fixpoint frame_instances (now : Z) (l : list Instance) (m : Manager.State)
  : list Instance * Manager.State :=
  match l with
  | [] => ([], m)
  | i :: rest =>
      let (s', fired) :=
        Explosion.frame now (Explosion.config (props i)) (state i) in
      let m1 := if fired then Manager.removeExplosion (key i) m else m in
      let (rest', m2) := frame_instances now rest m1 in
      (if fired then rest' else mkInstance (key i) (props i) s' :: rest', m2)
  end.

Definition frame (now : Z) (s : State) : State :=
  let (l, m) := frame_instances now (instances s) (manager s) in
  mkState m l.

(** [removeExplosion(id)] and [clearAllExplosions()] called by the
    application, with the render that follows. *)
Definition remove (id0 : Z) (s : State) : State :=
  mkState (Manager.removeExplosion id0 (manager s))
    (filter (fun i => negb (key i =? id0)%Z) (instances s)).

Definition clearAll (s : State) : State :=
  mkState (Manager.clearAllExplosions (manager s)) [].

(** What can happen to the scene, and a sequence of such events. *)
Inductive Op : Type :=
| Trigger (now : Z) (g : Rng) (a : Manager.Args)
| Frame (now : Z)
| Remove (id0 : Z)
| ClearAll.

Definition step (normalize : Vector3 -> Vector3) (s : State) (op : Op)
  : State :=
  match op with
  | Trigger now g a => snd (trigger normalize now g a s)
  | Frame now => frame now s
  | Remove id0 => remove id0 s
  | ClearAll => clearAll s
  end.

Definition run (normalize : Vector3 -> Vector3) (ops : list Op) (s : State)
  : State :=
  fold_left (step normalize) ops s.

End Scene.

(* ====================================================================== *)
(** ** Vocabulary of the statements *)
(* ====================================================================== *)

(** The indices [i, i+1, ..., i+n-1] a [for] loop visits. *)
Fixpoint Zrange (i : Z) (n : nat) : list Z :=
  match n with
  | O => []
  | S n' => i :: Zrange (i + 1) n'
  end.

(** The apportioning in integer arithmetic: core below a fifth of the
    count, fire below three fifths, spark below four fifths, smoke above. *)
Definition type_by_fifths (n i : Z) : string :=
  if (5 * i <? n)%Z then "core"
  else if (5 * i <? 3 * n)%Z then "fire"
  else if (5 * i <? 4 * n)%Z then "spark"
  else "smoke".

(** How many particles of a list have the given type. *)
Definition count_type (ty : string) (l : list Explosion.ParticleRecord) : nat :=
  List.length (filter (fun r => Explosion.p_type r =? ty) l).

(** What [randomRange(1 - scaleVariation, 1 + scaleVariation)] returns when
    [Math.random()] returns [r]. *)
Definition variation_of_draw (r : Q) : num :=
  (JS.Fin r * ((#1 + Explosion.scaleVariation) - (#1 - Explosion.scaleVariation))
   + (#1 - Explosion.scaleVariation))%js.

(** The components of [l], each multiplied by the variation of its own
    draw: the draws are [t c], [t (c+1)], ... in component order. *)
Fixpoint scaled_by_draws (t : nat -> Q) (c : nat) (l : list num) : list num :=
  match l with
  | [] => []
  | s :: l' => (s * variation_of_draw (t c))%js :: scaled_by_draws t (S c) l'
  end.

(** A computation that draws exactly [k] numbers. *)
Definition draws {A} (k : nat) (m : Rand A) : Prop :=
  forall g, snd (m g) = mkRng (tape g) (k + cursor g).

(** Vectors up to the value of their components. *)
Definition Vec_eqv (v w : Vector3) : Prop :=
  JS.eqv (x v) (x w) /\ JS.eqv (y v) (y w) /\ JS.eqv (z v) (z w).

(** The velocity adjustment in the words of the type table: scale the
    velocity by [decay], then add [bias * delta] to its vertical component
    (a negative [bias] makes it fall). *)
Definition decay_then_bias (decay bias delta : num) (v : Vector3) : Vector3 :=
  let v1 := Vec.multiplyScalar v decay in
  Vec.set_y v1 (y v1 + bias * delta)%js.

(** The adjustment of a type without decay. *)
Definition bias_only (bias delta : num) (v : Vector3) : Vector3 :=
  Vec.set_y v (y v + bias * delta)%js.

(** How many [triggerExplosion] calls a list of operations holds. *)
Fixpoint triggers (ops : list Manager.Op) : nat :=
  match ops with
  | [] => O
  | Manager.Trigger _ :: rest => S (triggers rest)
  | _ :: rest => triggers rest
  end.

(** What [randomSpread(m)] returns when [Math.random()] returns [r]. *)
Definition spread_of_draw (r : Q) (m : num) : num :=
  ((JS.Fin r - #0.5) * #2 * m)%js.

(** [Number.MAX_VALUE], the largest finite binary64 number: a difference
    of two numbers that is not above it does not overflow. *)
Definition MAX_VALUE : Q := inject_Z (2 ^ 1024 - 2 ^ 971).

(** Whether a number is the positive zero [+0]. *)
Definition positive_zero (a : num) : bool :=
  match a with
  | JS.Fin q => Qeq_bool q 0
  | _ => false
  end.





(** The offset of a chain explosion whose three draws start at [t c]. *)
Definition chain_offset_of_draws (t : nat -> Q) (c : nat) : Vector3 :=
  mkVector3 (spread_of_draw (t c) (#3)%js)
    (spread_of_draw (t (S c)) (#2)%js)
    (spread_of_draw (t (S (S c))) (#3)%js).

(** A finite vector within [-bx, bx] x [-by, by] x [-bz, bz]. *)
Definition in_box (bx by_ bz : Q) (v : Vector3) : Prop :=
  exists vx vy vz : Q,
    v = mkVector3 (JS.Fin vx) (JS.Fin vy) (JS.Fin vz) /\
    (- bx <= vx /\ vx <= bx)%Q /\
    (- by_ <= vy /\ vy <= by_)%Q /\
    (- bz <= vz /\ vz <= bz)%Q.

(** The smoke record a wreckage frame emits at clock reading [now] from
    the position [at_position], when its five draws start at [t c]. *)
Definition smoke_of_draws (now : Z) (at_position : Vector3) (t : nat -> Q)
  (c : nat) : FallingWreckage.Smoke :=
  FallingWreckage.mkSmoke (JS.of_Z now + JS.Fin (t (3 + c)%nat))%js at_position
    (mkVector3 (spread_of_draw (t c) (#1)%js)
       (JS.Fin (t (1 + c)%nat) * (#1.5 - #0.5) + #0.5)%js
       (spread_of_draw (t (2 + c)%nat) (#1)%js))
    (JS.Fin (t (4 + c)%nat) * (#0.6 - #0.3) + #0.3)%js.



(** The ids of the manager's list are pairwise distinct, not negative, and
    below the counter. *)
Definition manager_ok (s : Manager.State) : Prop :=
  NoDup (map Manager.id (Manager.explosions s)) /\
  Forall (fun e => (0 <= Manager.id e < Manager.explosionIdRef s)%Z)
    (Manager.explosions s).

(** The completion test of the explosion [i], at clock reading [now]. *)
Definition due (now : Z) (i : Scene.Instance) : bool :=
  (duration (Explosion.config (Scene.props i)) + 3000
   <? now - Explosion.startTime (Scene.state i))%Z.

(** Whether [l] holds an explosion with key [k] that is due. *)
Definition due_key (now : Z) (l : list Scene.Instance) (k : Z) : bool :=
  existsb (fun i => (Scene.key i =? k)%Z && due now i) l.

(** The rendered explosions are those of the manager's list, in its order,
    none of them complete, and the manager's ids are in order. *)
Definition scene_ok (s : Scene.State) : Prop :=
  map Scene.key (Scene.instances s) =
    map Manager.id (Manager.explosions (Scene.manager s)) /\
  Forall (fun i => Explosion.isComplete (Scene.state i) = false)
    (Scene.instances s) /\
  manager_ok (Scene.manager s) /\
  (0 <= Manager.explosionIdRef (Scene.manager s))%Z.

(** The ids of the smoke records are finite, strictly increasing along the
    list and below [lastSmokeTime + 1]. *)
Definition smoke_ids_ok (s : FallingWreckage.State) : Prop :=
  exists ids : list Q,
    map FallingWreckage.smoke_id (FallingWreckage.smokeParticles s)
      = map JS.Fin ids /\
    StronglySorted Qlt ids /\
    Forall (fun q => (q < inject_Z (FallingWreckage.lastSmokeTime s) + 1)%Q) ids.

(* ====================================================================== *)
(** * Properties *)
(* ====================================================================== *)

(** ** Completion of an explosion *)

Section Completion.

Import Explosion.

Variable cfg : ClassConfig.

(** The frame callback reads [startTime] and [isComplete] only, and writes
    [isComplete] only. *)
Lemma frame_spec (now : Z) (s : State) :
  frame now cfg s =
    (mkState (particles s) (shockwaves s) (wreckage s) (flash s)
       (secondaryExplosions s) (chainExplosions_ s)
       (isComplete s || (duration cfg + 3000 <? now - startTime s)%Z)
       (startTime s) (particleIdCounter s),
     negb (isComplete s) && (duration cfg + 3000 <? now - startTime s)%Z).
Proof.
  unfold frame. rewrite Z.gtb_ltb.
  destruct s as [ps sw wr fl se ch c t0 pid]; cbn.
  destruct (duration cfg + 3000 <? now - t0)%Z, c; reflexivity.
Qed.

Lemma frame_complete_stays (now : Z) (s : State) :
  isComplete s = true -> frame now cfg s = (s, false).
Proof.
  intros Hc. unfold frame. rewrite Hc, andb_false_r. reflexivity.
Qed.

Lemma frame_fired_completes (now : Z) (s : State) :
  snd (frame now cfg s) = true ->
  isComplete s = false /\ isComplete (fst (frame now cfg s)) = true.
Proof.
  rewrite frame_spec; cbn. intros H.
  apply andb_true_iff in H as [H1 H2].
  apply negb_true_iff in H1. rewrite H1, H2. auto.
Qed.

(** Once a render has read [isComplete = true], neither frames nor renders
    change anything. *)
Lemma run_complete_stays (events : list Event) (s : State) :
  isComplete s = true -> run events cfg true s = (s, O).
Proof.
  intros Hc. induction events as [|[now|] rest IH]; cbn; [reflexivity| |].
  - rewrite frame_complete_stays by reflexivity. now rewrite IH.
  - now rewrite Hc.
Qed.

(** No event resets the flag. *)
Lemma run_keeps_complete (events : list Event) :
  forall (seen : bool) (s : State),
    isComplete s = true -> isComplete (fst (run events cfg seen s)) = true.
Proof.
  induction events as [|[now|] rest IH]; intros seen s Hc; cbn;
    [exact Hc | | now apply IH].
  destruct (frame now cfg (with_isComplete seen s)) as [s1 fired] eqn:Hf.
  assert (H1 : isComplete (if fired then s1 else s) = true).
  { destruct fired; [|exact Hc].
    pose proof (frame_fired_completes now (with_isComplete seen s)) as H.
    rewrite Hf in H. now apply H. }
  specialize (IH seen _ H1).
  destruct (run rest cfg seen (if fired then s1 else s)). exact IH.
Qed.

(** Frames that follow one another with no render in between: every one
    whose clock reading is past the threshold calls [onComplete]. *)
Lemma run_frames_unrendered (ticks : list Z) :
  forall s : State,
    snd (run (map OnFrame ticks) cfg false s) =
    List.length
      (filter (fun now => (duration cfg + 3000 <? now - startTime s)%Z) ticks).
Proof.
  induction ticks as [|now rest IH]; intros s; cbn [map run filter];
    [reflexivity|].
  rewrite frame_spec. cbn [with_isComplete isComplete startTime negb andb orb].
  destruct (duration cfg + 3000 <? now - startTime s)%Z eqn:Hd.
  - match goal with
    | |- context [run _ cfg false ?s1] =>
        specialize (IH s1); destruct (run (map OnFrame rest) cfg false s1)
    end.
    cbn [snd List.length startTime] in *. now rewrite IH.
  - specialize (IH s).
    destruct (run (map OnFrame rest) cfg false s). cbn [snd] in *. exact IH.
Qed.

(** With a render after every frame [onComplete] is called at most once. *)
Lemma run_rendered_at_most_once (ticks : list Z) :
  forall s : State,
    (snd (run (flat_map (fun now => [OnFrame now; OnRender]) ticks) cfg
            (isComplete s) s) <= 1)%nat.
Proof.
  induction ticks as [|now rest IH]; intros s; cbn [flat_map app run];
    [cbn; lia|].
  destruct (isComplete s) eqn:Hc.
  - rewrite frame_complete_stays by reflexivity. rewrite Hc.
    rewrite run_complete_stays by exact Hc. cbn. lia.
  - rewrite frame_spec.
    cbn [with_isComplete isComplete startTime negb andb orb].
    destruct (duration cfg + 3000 <? now - startTime s)%Z.
    + cbn [isComplete]. rewrite run_complete_stays by reflexivity. cbn. lia.
    + rewrite Hc. specialize (IH s). rewrite Hc in IH.
      destruct (run _ cfg false s). cbn [snd] in *. lia.
Qed.

End Completion.

(** C1, as stated, fails.  A SMALL explosion (duration 800) created at clock
    reading 0 whose children have all finished is not completed by a frame
    at clock reading 3800, although its elapsed time has reached
    [duration + 3000]. *)
Lemma small_frame_at_3800_does_not_complete :
  let s := Explosion.mkState [] [] [] false [] [] false 0 15 in
  (3800 - Explosion.startTime s >= duration CLASSES.SMALL + 3000)%Z /\
  Explosion.frame 3800 CLASSES.SMALL s = (s, false).
Proof. split; [vm_compute; discriminate | reflexivity]. Qed.

(** C1 (amended).  For every class configuration, a frame completes an
    explosion that is not complete exactly when the elapsed time exceeds
    [duration + 3000] ms; it then calls [onComplete]; the outcome is the
    same for any other state of the child collections; for SMALL the
    condition is [startTime + 3800 < now]. *)
Theorem completion_is_time_based (cfg : ClassConfig) (now : Z)
  (s : Explosion.State) (Hs : Explosion.isComplete s = false) :
  (Explosion.isComplete (fst (Explosion.frame now cfg s)) = true <->
     (duration cfg + 3000 < now - Explosion.startTime s)%Z) /\
  (snd (Explosion.frame now cfg s) = true <->
     (duration cfg + 3000 < now - Explosion.startTime s)%Z) /\
  (forall s2 : Explosion.State,
     Explosion.startTime s2 = Explosion.startTime s ->
     Explosion.isComplete s2 = false ->
     Explosion.isComplete (fst (Explosion.frame now cfg s2)) =
       Explosion.isComplete (fst (Explosion.frame now cfg s)) /\
     snd (Explosion.frame now cfg s2) = snd (Explosion.frame now cfg s)) /\
  (Explosion.isComplete (fst (Explosion.frame now CLASSES.SMALL s)) = true <->
     (Explosion.startTime s + 3800 < now)%Z).
Proof.
  rewrite !frame_spec; cbn. rewrite Hs; cbn.
  repeat split.
  - apply Z.ltb_lt.
  - apply Z.ltb_lt.
  - intros H. apply Z.ltb_lt in H. exact H.
  - intros H. apply Z.ltb_lt. exact H.
  - rewrite frame_spec; cbn. rewrite H, H0. reflexivity.
  - rewrite frame_spec; cbn. rewrite H, H0. reflexivity.
  - intros H. apply Z.ltb_lt in H. lia.
  - intros H. apply Z.ltb_lt. lia.
Qed.

Lemma completion_is_time_based_witness :
  Explosion.isComplete (fst (Explosion.frame 3801 CLASSES.SMALL
    (Explosion.mkState [] [] [] false [] [] false 0 15))) = true.
Proof.
  apply (completion_is_time_based CLASSES.SMALL 3801
           (Explosion.mkState [] [] [] false [] [] false 0 15) eq_refl).
  vm_compute. reflexivity.
Defined.

(** C5 fails on the code.  A SMALL explosion created at clock reading 0
    gets three frames, at 3806, 3823 and 3840, before React renders again.
    Each of them tests the [isComplete] of the last render, which is
    [false], and calls [onComplete]: three calls, where the claim allows
    one.  The flag is set by the first of them and stays set; had React
    rendered after the first frame, the callback would have been called
    once. *)
Theorem onComplete_repeats_before_render :
  let s := Explosion.mount 0 in
  let unrendered :=
    Explosion.run
      [Explosion.OnFrame 3806; Explosion.OnFrame 3823; Explosion.OnFrame 3840]
      CLASSES.SMALL false s in
  let rendered :=
    Explosion.run
      [Explosion.OnFrame 3806; Explosion.OnRender; Explosion.OnFrame 3823;
       Explosion.OnFrame 3840]
      CLASSES.SMALL false s in
  snd unrendered = 3%nat /\
  Explosion.isComplete (fst unrendered) = true /\
  snd rendered = 1%nat /\
  Explosion.isComplete (fst rendered) = true.
Proof. repeat split. Qed.

(** ** The particle batch *)

Lemma Zrange_length (i : Z) (n : nat) : List.length (Zrange i n) = n.
Proof. revert i; induction n; intros i; cbn; [reflexivity | now rewrite IHn]. Qed.

(** The comparison [i < n * (a/b)] of the type selection, on integers. *)
Lemma index_below_fraction (i n : Z) (a : Z) (b : positive) :
  JS.ltb (JS.of_Z i) (JS.mul (JS.of_Z n) (JS.Fin (Qmake a b)))
  = (i * Zpos b <? n * a)%Z.
Proof.
  cbn. unfold JS.Qlt_bool, Qle_bool; cbn.
  rewrite Z.mul_1_r.
  destruct (Z.leb_spec (n * a) (i * Zpos b));
    destruct (Z.ltb_spec (i * Zpos b) (n * a)); cbn; try reflexivity; lia.
Qed.

Lemma particle_type_thresholds (i n : Z) :
  Explosion.particle_type i n = type_by_fifths n i.
Proof.
  unfold Explosion.particle_type, type_by_fifths.
  change (#0.2)%js with (JS.Fin (Qmake 2 10)).
  change (#0.6)%js with (JS.Fin (Qmake 6 10)).
  change (#0.8)%js with (JS.Fin (Qmake 8 10)).
  rewrite !index_below_fraction.
  repeat match goal with
         | |- context [ (?a <? ?b)%Z ] => destruct (Z.ltb_spec a b)
         end; try reflexivity; lia.
Qed.

Section ParticleBatch.

Import Explosion.

Variable normalize : Vector3 -> Vector3.
Variable cfg : ClassConfig.

Lemma new_particle_spec (i : Z) (acc : list ParticleRecord * Z) (g : Rng) :
  exists r : ParticleRecord,
    fst (new_particle normalize cfg i acc g) = (fst acc ++ [r], snd acc + 1)%Z /\
    p_id r = snd acc /\
    p_type r = particle_type i (particleCount cfg).
Proof.
  unfold new_particle, bind, randomSpread, randomRange, Math_random, ret; cbn.
  eexists; repeat split.
Qed.

Lemma particle_loop_types (n : nat) :
  forall (i : Z) (acc : list ParticleRecord * Z) (g : Rng),
    let out := fst (for_loop n i (new_particle normalize cfg) acc g) in
    map p_type (fst out) =
      map p_type (fst acc)
      ++ map (fun k => particle_type k (particleCount cfg)) (Zrange i n) /\
    snd out = (snd acc + Z.of_nat n)%Z.
Proof.
  induction n as [|n IH]; intros i acc g; cbn [for_loop Zrange map].
  - unfold ret; cbn. rewrite app_nil_r. split; [reflexivity | lia].
  - unfold bind.
    destruct (new_particle_spec i acc g) as (r & Hr & _ & Hty).
    destruct (new_particle normalize cfg i acc g) as [acc1 g1]; cbn in Hr.
    subst acc1. specialize (IH (i + 1)%Z (fst acc ++ [r], snd acc + 1)%Z g1).
    cbn in IH. destruct IH as [IH1 IH2]. cbn. split.
    + rewrite IH1, map_app, <- app_assoc. cbn. now rewrite Hty.
    + rewrite IH2. lia.
Qed.

(** [init] replaces the particle list by the batch the loop has built. *)
Lemma init_particles (showWreckage : bool) (s : State) (g : Rng) :
  particles (fst (init normalize cfg showWreckage s g)) =
    fst (fst (particle_batch normalize cfg (particleIdCounter s) g)).
Proof.
  unfold init, bind.
  destruct (particle_batch normalize cfg (particleIdCounter s) g) as [pc g1].
  destruct (shockwave_batch cfg g1) as [sw g2].
  destruct showWreckage, (chainExplosions cfg); unfold ret;
    repeat match goal with
           | |- context [ wreckage_batch ?c ?g ] => destruct (wreckage_batch c g)
           | |- context [ chain_batch ?c ?g ] => destruct (chain_batch c g)
           end; reflexivity.
Qed.

Lemma init_particle_types (showWreckage : bool) (s : State) (g : Rng) :
  map p_type (particles (fst (init normalize cfg showWreckage s g))) =
    map (fun k => particle_type k (particleCount cfg))
      (Zrange 0 (Z.to_nat (particleCount cfg))).
Proof.
  rewrite init_particles.
  exact (proj1 (particle_loop_types _ 0 ([], particleIdCounter s) g)).
Qed.

End ParticleBatch.

Lemma count_type_map (ty : string) (l : list Explosion.ParticleRecord) :
  count_type ty l =
    List.length (filter (fun t => t =? ty) (map Explosion.p_type l)).
Proof.
  unfold count_type. induction l as [|r l IH]; cbn; [reflexivity|].
  destruct (Explosion.p_type r =? ty); cbn; now rewrite IH.
Qed.

Lemma Zrange_app (a b : nat) :
  forall i : Z, Zrange i (a + b) = Zrange i a ++ Zrange (i + Z.of_nat a) b.
Proof.
  induction a as [|a IH]; intros i.
  - cbn. f_equal. lia.
  - cbn [Nat.add Zrange app]. rewrite IH. do 3 f_equal. lia.
Qed.

Lemma map_Zrange_const {A} (f : Z -> A) (c : A) (m : nat) :
  forall i : Z,
    (forall j : Z, (i <= j < i + Z.of_nat m)%Z -> f j = c) ->
    map f (Zrange i m) = repeat c m.
Proof.
  induction m as [|m IH]; intros i Hf; cbn; [reflexivity|].
  rewrite Hf by lia. f_equal. apply IH. intros j Hj. apply Hf. lia.
Qed.

(** When the count is a multiple of five the thresholds cut the indices
    into a fifth, two fifths, a fifth and a fifth. *)
Lemma fifths_exact (k : Z) :
  map (type_by_fifths (5 * k)) (Zrange 0 (Z.to_nat (5 * k))) =
    repeat "core" (Z.to_nat k) ++ repeat "fire" (Z.to_nat (2 * k))
    ++ repeat "spark" (Z.to_nat k) ++ repeat "smoke" (Z.to_nat k).
Proof.
  destruct (Z.le_gt_cases 0 k) as [Hk | Hk].
  - replace (Z.to_nat (5 * k))
      with (Z.to_nat k + (Z.to_nat (2 * k) + (Z.to_nat k + Z.to_nat k)))%nat
      by lia.
    rewrite !Zrange_app, !map_app.
    repeat f_equal; apply map_Zrange_const; intros j Hj;
      unfold type_by_fifths;
      repeat match goal with
             | |- context [ (?a <? ?b)%Z ] => destruct (Z.ltb_spec a b)
             end; try reflexivity; lia.
  - replace (Z.to_nat (5 * k)) with O by lia.
    replace (Z.to_nat (2 * k)) with O by lia.
    replace (Z.to_nat k) with O by lia. reflexivity.
Qed.

(** C6.  For every class configuration the batch [init] creates has
    [particleCount] particles; the type of the particle of index [i] is
    core below a fifth of the count, fire below three fifths, spark below
    four fifths and smoke from there on; when the count is a multiple of
    five, as it is for the four classes of the table, the batch is in index
    order a first fifth of core, two fifths of fire, a fifth of spark and a
    last fifth of smoke; and SMALL gets 3 core, 6 fire, 3 spark and 3 smoke
    particles out of 15. *)
Theorem particle_batch_apportioned (normalize : Vector3 -> Vector3)
  (cfg : ClassConfig) (showWreckage : bool) (s : Explosion.State) (g : Rng) :
  let n := particleCount cfg in
  let batch :=
    Explosion.particles (fst (Explosion.init normalize cfg showWreckage s g)) in
  let small :=
    Explosion.particles
      (fst (Explosion.init normalize CLASSES.SMALL showWreckage s g)) in
  List.length batch = Z.to_nat n /\
  map Explosion.p_type batch = map (type_by_fifths n) (Zrange 0 (Z.to_nat n)) /\
  (forall k : Z,
     n = (5 * k)%Z ->
     map Explosion.p_type batch =
       repeat "core" (Z.to_nat k) ++ repeat "fire" (Z.to_nat (2 * k))
       ++ repeat "spark" (Z.to_nat k) ++ repeat "smoke" (Z.to_nat k)) /\
  Forall (fun c => exists k : Z, particleCount c = (5 * k)%Z)
    [CLASSES.SMALL; CLASSES.MEDIUM; CLASSES.LARGE; CLASSES.BOSS] /\
  (List.length small = 15%nat /\
   count_type "core" small = 3%nat /\ count_type "fire" small = 6%nat /\
   count_type "spark" small = 3%nat /\ count_type "smoke" small = 3%nat).
Proof.
  intros n batch small.
  assert (Hty : map Explosion.p_type batch =
                map (type_by_fifths n) (Zrange 0 (Z.to_nat n))).
  { subst batch. rewrite init_particle_types. apply map_ext.
    intros k. apply particle_type_thresholds. }
  split; [|split; [exact Hty | split; [|split]]].
  - rewrite <- (length_map Explosion.p_type), Hty, length_map.
    apply Zrange_length.
  - intros k Hk. rewrite Hty, Hk. apply fifths_exact.
  - repeat constructor;
      [exists 3%Z | exists 6%Z | exists 10%Z | exists 20%Z]; reflexivity.
  - assert (Hs : map Explosion.p_type small =
                 map (fun k => Explosion.particle_type k 15)
                   (Zrange 0 15))
      by apply (init_particle_types normalize CLASSES.SMALL).
    split.
    + rewrite <- (length_map Explosion.p_type), Hs. reflexivity.
    + rewrite !count_type_map, Hs. vm_compute. auto.
Qed.

Lemma particle_batch_apportioned_witness :
  let g := mkRng (fun _ => 0.5%Q) 0 in
  map Explosion.p_type
    (Explosion.particles
       (fst (Explosion.init (fun v => v) CLASSES.BOSS true
               (Explosion.mount 0) g))) =
  repeat "core" 20 ++ repeat "fire" 40 ++ repeat "spark" 20
  ++ repeat "smoke" 20.
Proof.
  intros g.
  destruct (particle_batch_apportioned (fun v => v) CLASSES.BOSS true
              (Explosion.mount 0) g) as (_ & _ & H & _).
  apply (H 20%Z). reflexivity.
Defined.

(** ** The wreckage batch *)

Lemma for_loop_draws {S} (k : nat) (body : Z -> S -> Rand S) :
  (forall i s, draws k (body i s)) ->
  forall n i s, draws (n * k) (for_loop n i body s).
Proof.
  intros Hb n. induction n as [|n IH]; intros i s g; cbn [for_loop].
  - destruct g; reflexivity.
  - unfold bind. pose proof (Hb i s g) as H1.
    destruct (body i s g) as [s1 g1]; cbn in H1. subst g1.
    rewrite IH. cbn. f_equal. lia.
Qed.

Lemma new_particle_draws normalize cfg i acc :
  draws 7 (Explosion.new_particle normalize cfg i acc).
Proof. intros g. reflexivity. Qed.

Lemma new_shockwave_draws cfg i acc :
  draws 0 (Explosion.new_shockwave cfg i acc).
Proof. intros g. destruct g; reflexivity. Qed.

Lemma scale_map_spec (l : list num) (g : Rng) :
  map_rand
    (fun s =>
       f <- randomRange (#1 - Explosion.scaleVariation)%js
              (#1 + Explosion.scaleVariation)%js ;;
       ret (s * f)%js) l g
  = (scaled_by_draws (tape g) (cursor g) l,
     mkRng (tape g) (List.length l + cursor g)).
Proof.
  revert g. induction l as [|s l IH]; intros g; cbn [map_rand].
  - destruct g; reflexivity.
  - unfold bind at 1. unfold bind at 1.
    unfold randomRange at 1, Math_random, bind at 1, ret at 1; cbn.
    unfold bind. rewrite IH. cbn. unfold ret. f_equal. f_equal. lia.
Qed.

Lemma new_wreckage_spec cfg i acc g :
  Explosion.new_wreckage cfg i acc g =
    (acc ++ [Explosion.mkWreckage i
               (scaled_by_draws (tape g) (cursor g) (wreckageScale cfg))],
     mkRng (tape g) (List.length (wreckageScale cfg) + cursor g)).
Proof.
  unfold Explosion.new_wreckage, bind. rewrite scale_map_spec. reflexivity.
Qed.

Lemma wreckage_loop_spec cfg (n : nat) :
  forall (i : Z) (acc : list Explosion.WreckageRecord) (g : Rng),
    fst (for_loop n i (Explosion.new_wreckage cfg) acc g) =
      acc ++ map (fun k =>
                    Explosion.mkWreckage (i + Z.of_nat k)
                      (scaled_by_draws (tape g)
                         (cursor g + k * List.length (wreckageScale cfg))
                         (wreckageScale cfg)))
               (seq 0 n).
Proof.
  induction n as [|n IH]; intros i acc g; cbn [for_loop seq map].
  - unfold ret; cbn. now rewrite app_nil_r.
  - unfold bind. rewrite new_wreckage_spec, IH, <- app_assoc. cbn [app].
    f_equal. f_equal.
    + f_equal; [lia | f_equal; cbn; lia].
    + rewrite <- seq_shift, map_map. apply map_ext. intros k. cbn [tape cursor].
      f_equal; [lia | f_equal; lia].
Qed.

(** The random source when [init] reaches "Create wreckage": the particle
    loop has made seven draws per particle, the shockwave loop none. *)
Lemma init_wreckage normalize cfg (s : Explosion.State) (g : Rng) :
  Explosion.wreckage (fst (Explosion.init normalize cfg true s g)) =
    fst (Explosion.wreckage_batch cfg
           (mkRng (tape g) (Z.to_nat (particleCount cfg) * 7 + cursor g))).
Proof.
  unfold Explosion.init, bind.
  pose proof (for_loop_draws 7 (Explosion.new_particle normalize cfg)
                (new_particle_draws normalize cfg)
                (Z.to_nat (particleCount cfg)) 0
                ([], Explosion.particleIdCounter s) g) as Hp.
  fold (Explosion.particle_batch normalize cfg (Explosion.particleIdCounter s))
    in Hp.
  destruct (Explosion.particle_batch normalize cfg _ g) as [pc g1].
  cbn in Hp. subst g1.
  pose proof (for_loop_draws 0 (Explosion.new_shockwave cfg)
                (new_shockwave_draws cfg)
                (Z.to_nat SHOCKWAVE.RING_COUNT) 0 []
                (mkRng (tape g) (Z.to_nat (particleCount cfg) * 7 + cursor g)))
    as Hs.
  fold (Explosion.shockwave_batch cfg) in Hs.
  destruct (Explosion.shockwave_batch cfg _) as [sw g2].
  cbn in Hs. subst g2.
  destruct (Explosion.wreckage_batch cfg _) as [wr g3]; cbn.
  destruct (chainExplosions cfg); unfold ret;
    [destruct (Explosion.chain_batch cfg g3)|]; reflexivity.
Qed.

(** C3, as stated, fails.  For SMALL, when the three draws of the wreckage
    loop are 1/2, 0 and 1/2 (the particle loop has consumed the draws 0 to
    104), the one piece has scale [0.4 * 1.0; 0.25 * 0.7; 0.6 * 1.0]: no
    single factor gives it from [0.4; 0.25; 0.6]. *)
Lemma wreckage_scale_not_one_factor :
  let g := mkRng (fun n => if Nat.even n then 0%Q else 0.5%Q) 105 in
  exists piece : Explosion.WreckageRecord,
    fst (Explosion.wreckage_batch CLASSES.SMALL g) = [piece] /\
    ~ exists f : num,
        Forall2 JS.eqv (Explosion.w_scale piece)
          (map (fun s => (s * f)%js) (wreckageScale CLASSES.SMALL)).
Proof.
  eexists. split; [reflexivity|].
  intros [f Hf]. cbn in Hf.
  inversion Hf as [|a b l l' H1 Hf1]; subst; clear Hf.
  inversion Hf1 as [|a b l l' H2 Hf2]; subst; clear Hf1.
  destruct f as [q| | | |]; cbn in H1, H2; try contradiction; [lra|].
  discriminate H1.
Qed.

(** C3 (amended).  With [showWreckage], [init] creates exactly
    [wreckagePieces] wreckage records, with ids 0, 1, ...; the scale of a
    piece has the components of [wreckageScale], each multiplied by a
    factor [randomRange(0.7, 1.3)] of its own: the draws of a piece are
    consecutive, one per component, and follow those of the piece before. *)
Theorem wreckage_batch_scaled_per_axis (normalize : Vector3 -> Vector3)
  (cfg : ClassConfig) (s : Explosion.State) (g : Rng) :
  let batch :=
    Explosion.wreckage (fst (Explosion.init normalize cfg true s g)) in
  let first_draw := (Z.to_nat (particleCount cfg) * 7 + cursor g)%nat in
  let axes := List.length (wreckageScale cfg) in
  List.length batch = Z.to_nat (wreckagePieces cfg) /\
  batch =
    map (fun k =>
           Explosion.mkWreckage (Z.of_nat k)
             (scaled_by_draws (tape g) (first_draw + k * axes)
                (wreckageScale cfg)))
      (seq 0 (Z.to_nat (wreckagePieces cfg))).
Proof.
  intros batch first_draw axes.
  assert (H : batch =
    map (fun k =>
           Explosion.mkWreckage (Z.of_nat k)
             (scaled_by_draws (tape g) (first_draw + k * axes)
                (wreckageScale cfg)))
      (seq 0 (Z.to_nat (wreckagePieces cfg)))).
  { subst batch. rewrite init_wreckage. unfold Explosion.wreckage_batch.
    rewrite wreckage_loop_spec. reflexivity. }
  split; [|exact H].
  rewrite H, length_map, length_seq. reflexivity.
Qed.

(** ** The kinematic update of particles, smoke and wreckage *)

Lemma eqv_refl (a : num) : JS.eqv a a.
Proof. destruct a; cbn; auto. reflexivity. Qed.

Lemma ltb_not_geb (a b : num) : JS.ltb a b = true -> JS.geb a b = false.
Proof.
  unfold JS.geb. destruct a, b; cbn; try congruence;
    unfold JS.Qlt_bool; intros H; now apply negb_true_iff in H.
Qed.

(** Rising by [delta * k] is adding [k * delta]. *)
Lemma rise_eqv (a delta : num) (k : Q) :
  JS.eqv (a + delta * JS.Fin k)%js (a + JS.Fin k * delta)%js.
Proof.
  destruct a, delta; cbn; auto; try apply eqv_refl; ring.
Qed.

(** Falling by [delta * 15], or by [15 * delta], is adding [-15 * delta]. *)
Lemma fall_eqv (a delta : num) :
  JS.eqv (a - delta * #15)%js (a + #(-15) * delta)%js /\
  JS.eqv (a - #15 * delta)%js (a + #(-15) * delta)%js.
Proof.
  destruct a, delta; cbn; auto; split; try lra;
    match goal with
    | |- context [Qeq_bool ?u 0] =>
        destruct (Qeq_bool u 0) eqn:E; cbn;
        [apply Qeq_bool_iff in E | idtac]; lra
    end.
Qed.

Section ParticleFrame.

Import ExplosionParticle.

Variables (now : Z) (delta : num) (p : Props) (s : State).

(** A frame that does not complete. *)
Lemma frame_running :
  JS.geb (progress now p s) (#1)%js = false ->
  frame now delta p s =
    (mkState
       (Vec.add (position s) (Vec.multiplyScalar (velocity s) delta))
       (Vec.setScalar
          (JS.max (#0.01)%js (size p * (#1 - progress now p s * #0.7))%js))
       (JS.max (#0)%js (#1 - progress now p s)%js)
       (startTime s)
       (drag (type p) delta (velocity s)),
     false).
Proof. intros H. unfold frame. rewrite H. reflexivity. Qed.

Lemma frame_fired : snd (frame now delta p s) = JS.geb (progress now p s) (#1)%js.
Proof. unfold frame. destruct (JS.geb _ _); reflexivity. Qed.

Lemma frame_startTime : startTime (fst (frame now delta p s)) = startTime s.
Proof. unfold frame. destruct (JS.geb _ _); reflexivity. Qed.

Lemma drag_other :
  type p <> "fire" -> type p <> "spark" -> type p <> "smoke" ->
  forall v, drag (type p) delta v = v.
Proof.
  intros Hf Hs Hm v. unfold drag.
  apply String.eqb_neq in Hf, Hs, Hm. now rewrite Hf, Hs, Hm.
Qed.

End ParticleFrame.

(** C4, as stated, fails for wreckage: a piece at height 0 with velocity
    (0, 0, -5) is, after a frame of half a second, at height -3.75 (gravity
    has been applied to the velocity before the move), not at the height 0
    that [position += velocity * delta] gives with the velocity the frame
    started with. *)
Lemma wreckage_moves_with_updated_velocity :
  let p := FallingWreckage.mkProps Vec.zero
             (mkVector3 (#0) (#0) (#(-1)))%js [#0.4; #0.25; #0.6]%js
             (#(-5))%js in
  let s := FallingWreckage.mounted p (mkVector3 (#0) (#0) (#(-5)))%js
             (mkVector3 (#2) (#2) (#2))%js in
  let g := mkRng (fun _ => 0.5%Q) 0 in
  let s' := fst (fst (FallingWreckage.frame 1000 (#0.5)%js p s g)) in
  JS.eqv (y (FallingWreckage.position s')) (#(-3.75))%js /\
  JS.eqv (y (Vec.add (FallingWreckage.position s)
               (Vec.multiplyScalar (FallingWreckage.velocity s) (#0.5)%js)))
         (#0)%js /\
  ~ Vec_eqv (FallingWreckage.position s')
      (Vec.add (FallingWreckage.position s)
         (Vec.multiplyScalar (FallingWreckage.velocity s) (#0.5)%js)).
Proof.
  cbn. repeat split; try reflexivity.
  intros (_ & H & _). cbn in H. revert H. vm_compute. discriminate.
Qed.

(** What a frame does to a piece that has not landed: gravity on the
    velocity, then the move with the new velocity, then the rotation. *)
Lemma wreckage_frame_motion (now : Z) (delta : num)
  (p : FallingWreckage.Props) (s : FallingWreckage.State) (g : Rng) :
  FallingWreckage.hasLanded s = false ->
  let s' := fst (fst (FallingWreckage.frame now delta p s g)) in
  let v' :=
    Vec.set_y (FallingWreckage.velocity s)
      (y (FallingWreckage.velocity s) - WRECKAGE.GRAVITY * delta)%js in
  let position' :=
    Vec.add (FallingWreckage.position s) (Vec.multiplyScalar v' delta) in
  FallingWreckage.velocity s' = v' /\
  FallingWreckage.position s' = position' /\
  FallingWreckage.hasLanded s' = JS.leb (y position') (FallingWreckage.groundY p) /\
  snd (fst (FallingWreckage.frame now delta p s g)) =
    if JS.leb (y position') (FallingWreckage.groundY p) then [position'] else [].
Proof.
  intros Hl. unfold FallingWreckage.frame. rewrite Hl.
  unfold bind, FallingWreckage.emit_smoke.
  destruct (JS.gtb _ _); cbn;
    destruct (JS.leb _ (FallingWreckage.groundY p)); cbn; auto.
Qed.

(** C4 (amended).  A frame of a particle with progress below 1 first moves
    the position by [velocity * delta], then scales the velocity by the
    decay of its type and then adds the vertical bias of its type: fire
    0.96 and [+2 delta], spark 0.98 and [-15 delta], smoke 0.92 and
    [+1 delta]; a smoke-trail particle likewise with 0.95 and [+0.8 delta].
    A wreckage piece that has not landed is different: its velocity gets
    [-15 delta] on the vertical, without decay, before the move, and the
    position moves by the new velocity times [delta]. *)
Theorem kinematic_update_by_type (now : Z) (delta : num)
  (p : ExplosionParticle.Props) (s : ExplosionParticle.State)
  (Hrun : JS.ltb (ExplosionParticle.progress now p s) (#1)%js = true) :
  let s' := fst (ExplosionParticle.frame now delta p s) in
  ExplosionParticle.position s' =
    Vec.add (ExplosionParticle.position s)
      (Vec.multiplyScalar (ExplosionParticle.velocity s) delta) /\
  (ExplosionParticle.type p = "fire" ->
   Vec_eqv (ExplosionParticle.velocity s')
     (decay_then_bias (#0.96) (#2) delta (ExplosionParticle.velocity s))%js) /\
  (ExplosionParticle.type p = "spark" ->
   Vec_eqv (ExplosionParticle.velocity s')
     (decay_then_bias (#0.98) (#(-15)) delta (ExplosionParticle.velocity s))%js) /\
  (ExplosionParticle.type p = "smoke" ->
   Vec_eqv (ExplosionParticle.velocity s')
     (decay_then_bias (#0.92) (#1) delta (ExplosionParticle.velocity s))%js) /\
  (forall (lifetime : num) (sp : SmokeParticle.Props) (ss : SmokeParticle.State),
     JS.ltb (SmokeParticle.progress now lifetime ss) (#1)%js = true ->
     let ss' := fst (SmokeParticle.frame now delta lifetime sp ss) in
     SmokeParticle.position ss' =
       Vec.add (SmokeParticle.position ss)
         (Vec.multiplyScalar (SmokeParticle.vel ss) delta) /\
     Vec_eqv (SmokeParticle.vel ss')
       (decay_then_bias (#0.95) (#0.8) delta (SmokeParticle.vel ss))%js) /\
  (forall (wp : FallingWreckage.Props) (ws : FallingWreckage.State) (g : Rng),
     FallingWreckage.hasLanded ws = false ->
     let ws' := fst (fst (FallingWreckage.frame now delta wp ws g)) in
     Vec_eqv (FallingWreckage.velocity ws')
       (bias_only (#(-15)) delta (FallingWreckage.velocity ws))%js /\
     FallingWreckage.position ws' =
       Vec.add (FallingWreckage.position ws)
         (Vec.multiplyScalar (FallingWreckage.velocity ws') delta)).
Proof.
  intros s'. subst s'.
  rewrite (frame_running now delta p s (ltb_not_geb _ _ Hrun)).
  cbn [fst ExplosionParticle.position ExplosionParticle.velocity].
  split; [reflexivity|].
  split; [|split; [|split; [|split]]].
  - intros ->. cbn. repeat split; try apply eqv_refl. apply rise_eqv.
  - intros ->. cbn. repeat split; try apply eqv_refl. apply fall_eqv.
  - intros ->. cbn. repeat split; try apply eqv_refl. apply rise_eqv.
  - intros lifetime sp ss Hss. unfold SmokeParticle.frame.
    rewrite (ltb_not_geb _ _ Hss). cbn.
    repeat split; try apply eqv_refl. apply rise_eqv.
  - intros wp ws g Hl.
    destruct (wreckage_frame_motion now delta wp ws g Hl) as (Hv & Hp & _).
    cbn zeta in Hv, Hp. rewrite Hp, Hv. split; [|reflexivity].
    repeat split; try apply eqv_refl. apply fall_eqv.
Qed.

Lemma kinematic_update_by_type_witness :
  let p := ExplosionParticle.mkProps Vec.zero
             (mkVector3 (#0) (#1) (#0))%js (#10)%js (#0.3)%js
             (Some "#ff8800") (#1)%js "fire" in
  let s := ExplosionParticle.mount 0 p in
  Vec_eqv
    (ExplosionParticle.velocity
       (fst (ExplosionParticle.frame 500 (#0.016)%js p s)))
    (decay_then_bias (#0.96) (#2) (#0.016) (ExplosionParticle.velocity s))%js.
Proof.
  intros p s.
  apply (kinematic_update_by_type 500 (#0.016)%js p s eq_refl).
  reflexivity.
Defined.

(** ** Particles without drag *)

Lemma run_velocity_constant (ticks : list (Z * num))
  (p : ExplosionParticle.Props) :
  ExplosionParticle.type p <> "fire" ->
  ExplosionParticle.type p <> "spark" ->
  ExplosionParticle.type p <> "smoke" ->
  forall s : ExplosionParticle.State,
    ExplosionParticle.velocity (fst (ExplosionParticle.run ticks p s)) =
    ExplosionParticle.velocity s.
Proof.
  intros Hf Hs Hm.
  induction ticks as [|[now delta] rest IH]; intros s; cbn; [reflexivity|].
  destruct (ExplosionParticle.frame now delta p s) as [s1 fired] eqn:Hfr.
  specialize (IH s1).
  destruct (ExplosionParticle.run rest p s1) as [s2 n]; cbn in *.
  rewrite IH. unfold ExplosionParticle.frame in Hfr.
  destruct (JS.geb _ _); inversion Hfr; subst; cbn; [reflexivity|].
  now apply drag_other.
Qed.

(** C10.  For a particle whose type is none of fire, spark and smoke (core
    is one), a frame with progress below 1 moves the position by
    [velocity * delta], sets scale and opacity, and leaves the velocity and
    the start time as they are; over any sequence of frames the velocity is
    the one the particle started with. *)
Theorem core_velocity_unchanged (now : Z) (delta : num)
  (p : ExplosionParticle.Props) (s : ExplosionParticle.State)
  (Hfire : ExplosionParticle.type p <> "fire")
  (Hspark : ExplosionParticle.type p <> "spark")
  (Hsmoke : ExplosionParticle.type p <> "smoke") :
  (JS.ltb (ExplosionParticle.progress now p s) (#1)%js = true ->
   ExplosionParticle.frame now delta p s =
     (ExplosionParticle.mkState
        (Vec.add (ExplosionParticle.position s)
           (Vec.multiplyScalar (ExplosionParticle.velocity s) delta))
        (Vec.setScalar
           (JS.max (#0.01)
              (ExplosionParticle.size p
               * (#1 - ExplosionParticle.progress now p s * #0.7)))%js)
        (JS.max (#0) (#1 - ExplosionParticle.progress now p s))%js
        (ExplosionParticle.startTime s)
        (ExplosionParticle.velocity s),
      false)) /\
  (forall ticks : list (Z * num),
     ExplosionParticle.velocity (fst (ExplosionParticle.run ticks p s)) =
     ExplosionParticle.velocity s) /\
  (forall (v : Vector3) (d : num), ExplosionParticle.drag "core" d v = v).
Proof.
  split; [|split].
  - intros Hrun.
    rewrite (frame_running now delta p s (ltb_not_geb _ _ Hrun)).
    now rewrite drag_other.
  - intros ticks. now apply run_velocity_constant.
  - reflexivity.
Qed.

Lemma core_velocity_unchanged_witness :
  let p := ExplosionParticle.mkProps Vec.zero
             (mkVector3 (#0) (#1) (#0))%js (#15)%js (#0.2)%js
             (Some "#ffffff") (#1)%js "core" in
  let s := ExplosionParticle.mount 0 p in
  ExplosionParticle.velocity
    (fst (ExplosionParticle.run
            [(16, #0.016); (33, #0.017); (50, #0.017)]%js p s)) =
  ExplosionParticle.velocity s.
Proof.
  intros p s.
  apply (core_velocity_unchanged 16 (#0.016)%js p s);
    cbn; intros H; discriminate H.
Defined.

(** ** Particles with a lifetime that is not positive *)

Lemma progress_negative_lifetime (e : Z) (l : Q) :
  (0 <= e)%Z -> (l < 0)%Q ->
  JS.geb (JS.of_Z e / #1000 / JS.Fin l)%js (#1)%js = false.
Proof.
  intros He Hl. unfold JS.of_Z. cbn.
  destruct (Qeq_bool l 0) eqn:Hz.
  - apply Qeq_bool_iff in Hz. lra.
  - cbn. apply not_true_is_false. intros H. apply Qle_bool_iff in H.
    assert (H0 : (0 <= inject_Z e / 1000)%Q).
    { unfold Qdiv. apply Qmult_le_0_compat; [|discriminate].
      change 0%Q with (inject_Z 0). now rewrite <- Zle_Qle. }
    assert (Hl' : ~ (l == 0)%Q) by lra.
    pose proof (Qmult_div_r (inject_Z e / 1000) l Hl') as Hm.
    set (u := (inject_Z e / 1000)%Q) in *.
    set (w := (u / l)%Q) in *.
    assert (Hw : (l * (w - 1) <= 0)%Q).
    { setoid_replace (l * (w - 1))%Q with (- ((- l) * (w - 1)))%Q by ring.
      apply Qopp_le_compat with (p := 0%Q) (q := ((- l) * (w - 1))%Q).
      apply Qmult_le_0_compat; lra. }
    lra.
Qed.

Lemma progress_zero_lifetime (e : Z) (l : Q) :
  (l == 0)%Q ->
  JS.geb (JS.of_Z e / #1000 / JS.Fin l)%js (#1)%js = (0 <? e)%Z.
Proof.
  intros Hl. unfold JS.of_Z. cbn.
  apply Qeq_bool_iff in Hl. rewrite Hl.
  unfold JS.signed_inf.
  assert (Hc : (inject_Z e / 1000 ?= 0)%Q = (e ?= 0)%Z).
  { unfold Qcompare; cbn. rewrite Z.mul_1_r.
    destruct e; reflexivity. }
  rewrite Hc. destruct e; reflexivity.
Qed.

(** C7, as stated, fails.  A fire particle created at clock reading 0 with
    lifetime -1 does not call [onComplete] in its first frame, 16 ms later:
    its progress is -0.016. *)
Lemma negative_lifetime_first_frame_not_complete :
  let p := ExplosionParticle.mkProps Vec.zero
             (mkVector3 (#0) (#1) (#0))%js (#10)%js (#0.3)%js
             (Some "#ff8800") (#(-1))%js "fire" in
  let s := ExplosionParticle.mount 0 p in
  JS.leb (ExplosionParticle.lifetime p) (#0)%js = true /\
  snd (ExplosionParticle.frame 16 (#0.016)%js p s) = false /\
  JS.eqv (ExplosionParticle.progress 16 p s) (#(-0.016))%js.
Proof. cbn. repeat split. Qed.

(** A lifetime that is [<= 0] and not the positive zero: a negative
    number, [-Infinity] or [-0].  The progress is then negative, [-0],
    [-Infinity] or [NaN]. *)
Lemma progress_nonpositive_lifetime (e : Z) (lt : num) :
  (0 <= e)%Z -> JS.leb lt (#0)%js = true -> positive_zero lt = false ->
  JS.geb (JS.of_Z e / #1000 / lt)%js (#1)%js = false.
Proof.
  intros He Hle Hz. destruct lt as [l| | | |]; try discriminate Hle.
  - apply progress_negative_lifetime; [exact He|].
    cbn in Hle, Hz. apply Qle_bool_iff in Hle.
    assert (Hne : ~ (l == 0)%Q)
      by (intros E; apply Qeq_bool_iff in E; congruence).
    lra.
  - destruct e as [|e|e]; [reflexivity | reflexivity | lia].
  - reflexivity.
Qed.

Lemma run_never_completes (ticks : list (Z * num))
  (p : ExplosionParticle.Props) :
  JS.leb (ExplosionParticle.lifetime p) (#0)%js = true ->
  positive_zero (ExplosionParticle.lifetime p) = false ->
  forall s : ExplosionParticle.State,
    Forall (fun t => (ExplosionParticle.startTime s <= fst t)%Z) ticks ->
    snd (ExplosionParticle.run ticks p s) = O.
Proof.
  intros Hle Hz.
  induction ticks as [|[now delta] rest IH]; intros s Hall; cbn; [reflexivity|].
  inversion Hall as [|t ts Hnow Hrest]; subst; cbn in Hnow.
  pose proof (frame_fired now delta p s) as Hf.
  pose proof (frame_startTime now delta p s) as Ht.
  unfold ExplosionParticle.progress, ExplosionParticle.elapsed in Hf.
  rewrite progress_nonpositive_lifetime in Hf by (lia || assumption).
  destruct (ExplosionParticle.frame now delta p s) as [s1 fired].
  cbn in Hf, Ht. subst fired.
  rewrite <- Ht in Hrest. specialize (IH s1 Hrest).
  destruct (ExplosionParticle.run rest p s1) as [s2 n]. cbn in *. now subst n.
Qed.

(** C7 (amended).  The frame callback has no guard for a lifetime that is
    [<= 0].  With a negative lifetime, finite or [-Infinity], and with the
    lifetime [-0], no frame at or after the creation calls [onComplete],
    over any sequence of such frames: the progress is never above 0 (it is
    negative, [-0], [-Infinity] or [NaN]).  With the lifetime [+0] a frame
    calls [onComplete] exactly when its clock reading is after the
    creation's (the progress is [+Infinity]; in the creation's millisecond
    it is [NaN]). *)
Theorem nonpositive_lifetime_unguarded (now : Z) (delta : num)
  (p : ExplosionParticle.Props) (s : ExplosionParticle.State)
  (Hle : JS.leb (ExplosionParticle.lifetime p) (#0)%js = true) :
  (positive_zero (ExplosionParticle.lifetime p) = false ->
   ((ExplosionParticle.startTime s <= now)%Z ->
    snd (ExplosionParticle.frame now delta p s) = false) /\
   (forall ticks : list (Z * num),
      Forall (fun t => (ExplosionParticle.startTime s <= fst t)%Z) ticks ->
      snd (ExplosionParticle.run ticks p s) = O)) /\
  (positive_zero (ExplosionParticle.lifetime p) = true ->
   snd (ExplosionParticle.frame now delta p s) =
     (ExplosionParticle.startTime s <? now)%Z).
Proof.
  split.
  - intros Hz. split.
    + intros Hnow. rewrite frame_fired.
      unfold ExplosionParticle.progress, ExplosionParticle.elapsed.
      apply progress_nonpositive_lifetime; [lia | exact Hle | exact Hz].
    + intros ticks Hall. exact (run_never_completes ticks p Hle Hz s Hall).
  - intros Hz. rewrite frame_fired.
    unfold ExplosionParticle.progress, ExplosionParticle.elapsed.
    destruct (ExplosionParticle.lifetime p) as [l| | | |]; try discriminate Hz.
    cbn in Hz. apply Qeq_bool_iff in Hz.
    rewrite (progress_zero_lifetime _ l Hz).
    destruct (Z.ltb_spec 0 (now - ExplosionParticle.startTime s));
      destruct (Z.ltb_spec (ExplosionParticle.startTime s) now);
      try reflexivity; lia.
Qed.

Lemma nonpositive_lifetime_unguarded_witness :
  let p := ExplosionParticle.mkProps Vec.zero
             (mkVector3 (#0) (#1) (#0))%js (#10)%js (#0.3)%js
             (Some "#ff8800") JS.NZero "fire" in
  let s := ExplosionParticle.mount 0 p in
  snd (ExplosionParticle.run
         [(0, #0.016); (16, #0.016); (5000, #0.017)]%js p s) = O.
Proof.
  intros p s.
  apply (nonpositive_lifetime_unguarded 16 (#0.016)%js p s eq_refl).
  - reflexivity.
  - repeat constructor; cbn; discriminate.
Defined.

(** ** Landing of a wreckage piece *)

Section Landing.

Import FallingWreckage.

Variable p : Props.

Lemma frame_landed (now : Z) (delta : num) (s : State) (g : Rng) :
  hasLanded s = true -> fst (frame now delta p s g) = (s, []).
Proof. intros H. unfold frame. rewrite H. reflexivity. Qed.



End Landing.

(** C2 on a failing input.  An explosion at height 10 over a ground plane
    at height -5 draws its wreckage in its own group.  A piece with initial
    velocity (0, 0, -5) is, after two frames of half a second, at height
    -11.25 in the group, which is at or below [groundY]: it lands and
    [onGroundHit] gets that position.  In the scene the piece is then at
    height -1.25, above the ground plane. *)
Theorem wreckage_lands_above_ground_plane :
  let e := Explosion.mkProps (mkVector3 (#0) (#10) (#0))%js
             (mkVector3 (#0) (#0) (#(-1)))%js "SMALL" true WRECKAGE.GROUND_Y in
  let piece := Explosion.mkWreckage 0 [#0.4; #0.25; #0.6]%js in
  let wp := Explosion.wreckage_props e piece in
  let s0 := FallingWreckage.mounted wp (mkVector3 (#0) (#0) (#(-5)))%js
              (mkVector3 (#2) (#2) (#2))%js in
  let g := mkRng (fun _ => 0.5%Q) 0 in
  let out := FallingWreckage.run [(500, #0.5, g); (1000, #0.5, g)]%js wp s0 in
  let landing := FallingWreckage.position (fst out) in
  JS.ltb (Explosion.groundY e)
         (y (Explosion.to_parent e (FallingWreckage.startPosition wp))) = true /\
  FallingWreckage.hasLanded (fst out) = true /\
  snd out = [landing] /\
  JS.eqv (y landing) (#(-11.25))%js /\
  JS.eqv (y (Explosion.to_parent e landing)) (#(-1.25))%js /\
  JS.leb (y (Explosion.to_parent e landing)) (Explosion.groundY e) = false.
Proof. vm_compute. repeat split. Qed.

(** ** Identifiers of the manager *)

Lemma run_ids (ops : list Manager.Op) :
  forall s : Manager.State,
    fst (Manager.run ops s) = Zrange (Manager.explosionIdRef s) (triggers ops) /\
    Manager.explosionIdRef (snd (Manager.run ops s)) =
      (Manager.explosionIdRef s + Z.of_nat (triggers ops))%Z.
Proof.
  induction ops as [|op rest IH]; intros s; cbn [Manager.run triggers Zrange].
  - cbn. split; [reflexivity | lia].
  - destruct op as [a | id0 |].
    + cbn [Manager.triggerExplosion].
      specialize (IH (Manager.mkState
                        (Manager.explosions s ++
                           [Manager.mkEntry (Manager.explosionIdRef s)
                              (Manager.to_vector (Manager.a_position a))
                              (Manager.to_vector
                                 (Manager.default (Manager.a_forwardVector a)
                                    (inl (mkVector3 (#0) (#0) (#(-1)))%js)))
                              (Manager.default (Manager.a_explosionClass a) "MEDIUM")
                              (Manager.default (Manager.a_showWreckage a) true)
                              (Manager.default (Manager.a_groundY a)
                                 WRECKAGE.GROUND_Y)])
                        (Manager.explosionIdRef s + 1))).
      cbn [Manager.explosionIdRef] in IH.
      destruct (Manager.run rest _) as [ids s2]. cbn in *.
      destruct IH as [IH1 IH2]. split; [now rewrite IH1 | lia].
    + apply (IH (Manager.removeExplosion id0 s)).
    + apply (IH (Manager.clearAllExplosions s)).
Qed.

Lemma Zrange_lower (n : nat) :
  forall i k : Z, In k (Zrange i n) -> (i <= k)%Z.
Proof.
  induction n as [|n IH]; intros i k Hk; cbn in Hk; [contradiction|].
  destruct Hk as [<- | Hk]; [lia|]. apply IH in Hk. lia.
Qed.

Lemma Zrange_upper (n : nat) :
  forall i k : Z, In k (Zrange i n) -> (k < i + Z.of_nat n)%Z.
Proof.
  induction n as [|n IH]; intros i k Hk; cbn in Hk; [contradiction|].
  destruct Hk as [<- | Hk]; [lia|]. apply IH in Hk. lia.
Qed.

Lemma Zrange_sorted (n : nat) :
  forall i : Z, StronglySorted Z.lt (Zrange i n).
Proof.
  induction n as [|n IH]; intros i; cbn; constructor; [apply IH|].
  apply Forall_forall. intros k Hk. apply Zrange_lower in Hk. lia.
Qed.

Lemma sorted_NoDup (l : list Z) : StronglySorted Z.lt l -> NoDup l.
Proof.
  induction 1 as [|a l Hs IH Hall]; constructor; [|exact IH].
  intros Hin. rewrite Forall_forall in Hall. specialize (Hall a Hin). lia.
Qed.

(** C8.  For every sequence of manager operations, from any state of the
    manager: the ids the [triggerExplosion] calls return are the successive
    values of the counter, so each is greater than every id returned before
    it, whatever removals and clears come in between; they are pairwise
    distinct and as many as the calls. *)
Theorem trigger_ids_fresh (ops : list Manager.Op) (s : Manager.State) :
  let ids := fst (Manager.run ops s) in
  ids = Zrange (Manager.explosionIdRef s) (triggers ops) /\
  StronglySorted Z.lt ids /\
  NoDup ids /\
  List.length ids = triggers ops /\
  Forall (fun i => (i < Manager.explosionIdRef (snd (Manager.run ops s)))%Z) ids.
Proof.
  intros ids. destruct (run_ids ops s) as [Hids Href]. fold ids in Hids.
  repeat split.
  - exact Hids.
  - rewrite Hids. apply Zrange_sorted.
  - apply sorted_NoDup. rewrite Hids. apply Zrange_sorted.
  - rewrite Hids. apply Zrange_length.
  - rewrite Href, Hids. apply Forall_forall. intros k Hk.
    now apply Zrange_upper.
Qed.

(** ** Camera shake *)

(** A spread of a finite magnitude [m >= 0] lies within [-m] and [m]. *)
Lemma spread_within (r m : Q) :
  (0 <= r < 1)%Q -> (0 <= m)%Q ->
  exists d : Q,
    spread_of_draw r (JS.Fin m) = JS.Fin d /\ (- m <= d /\ d <= m)%Q.
Proof.
  intros [Hr0 Hr1] Hm. eexists. split; [reflexivity|].
  set (a := ((r - 0.5) * 2)%Q).
  assert (Ha : (-1 <= a /\ a <= 1)%Q) by (unfold a; lra).
  assert (H1 : (0 <= (1 - a) * m)%Q) by (apply Qmult_le_0_compat; lra).
  assert (H2 : (0 <= (1 + a) * m)%Q) by (apply Qmult_le_0_compat; lra).
  lra.
Qed.

Section Shake.

Import CameraShake.

Variables (now : Z) (p : Props) (s : State) (g : Rng).
Variables (t0 : Z) (base : Vector3).
Hypothesis Hstart : truthy_time (startTime s) = Some t0.
Hypothesis Hbase : originalPosition s = Some base.

Let progress : num := (JS.of_Z (now - t0) / duration p)%js.

Lemma frame_shaking :
  JS.geb progress (#1)%js = false ->
  frame now p s g =
    (mkState (startTime s) (originalPosition s)
       (mkVector3
          (x base + spread_of_draw (tape g (cursor g))
                      (intensity p * (#1 - progress)))%js
          (y base + spread_of_draw (tape g (S (cursor g)))
                      (intensity p * (#1 - progress)))%js
          (z (camera s))),
     mkRng (tape g) (S (S (cursor g)))).
Proof.
  intros H. unfold frame. rewrite Hstart, Hbase. fold progress. rewrite H.
  reflexivity.
Qed.

Lemma frame_restoring :
  JS.geb progress (#1)%js = true ->
  frame now p s g = (mkState None (Some base) base, g).
Proof.
  intros H. unfold frame. rewrite Hstart, Hbase. fold progress. rewrite H.
  reflexivity.
Qed.

End Shake.

Lemma frame_inactive (now : Z) (p : CameraShake.Props)
  (s : CameraShake.State) (g : Rng) :
  CameraShake.active s = false -> CameraShake.frame now p s g = (s, g).
Proof.
  unfold CameraShake.active, CameraShake.frame.
  destruct (CameraShake.truthy_time _), (CameraShake.originalPosition s);
    intros H; try discriminate H; reflexivity.
Qed.

(** C9.  While the shake is active with captured base position [base]:
    a frame with progress below 1 sets the camera's x and y to the base's x
    and y plus a random spread each, for the magnitude
    [intensity * (1 - progress)], keeps z, and keeps the shake active; when
    intensity and progress are finite, with [0 <= progress], the two
    offsets lie within that magnitude.  A frame with progress at or above 1
    sets the camera position to [base] and deactivates the shake; frames
    after it leave the camera alone. *)
Theorem camera_shake_frame (now : Z) (p : CameraShake.Props)
  (s : CameraShake.State) (g : Rng) (t0 : Z) (base : Vector3)
  (Hstart : CameraShake.truthy_time (CameraShake.startTime s) = Some t0)
  (Hbase : CameraShake.originalPosition s = Some base) :
  let progress := (JS.of_Z (now - t0) / CameraShake.duration p)%js in
  let magnitude := (CameraShake.intensity p * (#1 - progress))%js in
  let s' := fst (CameraShake.frame now p s g) in
  (JS.ltb progress (#1)%js = true ->
   CameraShake.camera s' =
     mkVector3
       (x base + spread_of_draw (tape g (cursor g)) magnitude)%js
       (y base + spread_of_draw (tape g (S (cursor g))) magnitude)%js
       (z (CameraShake.camera s)) /\
   CameraShake.active s' = true /\
   CameraShake.originalPosition s' = Some base /\
   (forall i q : Q,
      CameraShake.intensity p = JS.Fin i -> progress = JS.Fin q ->
      (0 <= i)%Q -> (0 <= q)%Q -> unit_interval (tape g) ->
      exists dx dy : Q,
        CameraShake.camera s' =
          mkVector3 (x base + JS.Fin dx)%js (y base + JS.Fin dy)%js
            (z (CameraShake.camera s)) /\
        (- (i * (1 - q)) <= dx /\ dx <= i * (1 - q))%Q /\
        (- (i * (1 - q)) <= dy /\ dy <= i * (1 - q))%Q)) /\
  (JS.geb progress (#1)%js = true ->
   CameraShake.camera s' = base /\
   CameraShake.active s' = false /\
   forall (now' : Z) (g' : Rng),
     CameraShake.frame now' p s' g' = (s', g')).
Proof.
  intros progress magnitude s'. split.
  - intros Hlt. apply ltb_not_geb in Hlt.
    assert (Hs' : s' = CameraShake.mkState (CameraShake.startTime s)
                         (CameraShake.originalPosition s)
                         (mkVector3
                            (x base + spread_of_draw (tape g (cursor g)) magnitude)%js
                            (y base + spread_of_draw (tape g (S (cursor g))) magnitude)%js
                            (z (CameraShake.camera s)))).
    { subst s'. now rewrite (frame_shaking now p s g t0 base Hstart Hbase Hlt). }
    rewrite Hs'. cbn [CameraShake.camera CameraShake.originalPosition].
    split; [reflexivity|]. split; [|split; [exact Hbase|]].
    + unfold CameraShake.active; cbn. now rewrite Hstart, Hbase.
    + intros i q Hi Hq Hi0 Hq0 Hunit.
      assert (Hq1 : (q < 1)%Q).
      { fold progress in Hlt. rewrite Hq in Hlt. cbn in Hlt.
        apply not_true_iff_false in Hlt. rewrite Qle_bool_iff in Hlt. lra. }
      assert (Hm : (0 <= i * (1 - q))%Q) by (apply Qmult_le_0_compat; lra).
      assert (Hmag : magnitude = JS.Fin (i * (1 - q)))
        by (subst magnitude; rewrite Hi, Hq; reflexivity).
      rewrite Hmag.
      destruct (spread_within (tape g (cursor g)) _ (Hunit _) Hm)
        as (dx & Hdx & Bx).
      destruct (spread_within (tape g (S (cursor g))) _ (Hunit _) Hm)
        as (dy & Hdy & By).
      exists dx, dy. rewrite Hdx, Hdy. auto.
  - intros Hge.
    assert (Hs' : s' = CameraShake.mkState None (Some base) base).
    { subst s'. now rewrite (frame_restoring now p s g t0 base Hstart Hbase Hge). }
    rewrite Hs'. split; [reflexivity|]. split; [reflexivity|].
    intros now' g'. now apply frame_inactive.
Qed.

Lemma camera_shake_frame_witness :
  let p := CameraShake.mkProps (#0.25)%js (#500)%js in
  let s := CameraShake.effect 1000 p
             (CameraShake.mkState None None (mkVector3 (#0) (#8) (#20))%js) in
  let g := mkRng (fun _ => 0.75%Q) 0 in
  z (CameraShake.camera (fst (CameraShake.frame 1250 p s g))) = (#20)%js /\
  CameraShake.camera (fst (CameraShake.frame 1500 p s g)) =
    (mkVector3 (#0) (#8) (#20))%js.
Proof.
  intros p s g. split.
  - pose proof (camera_shake_frame 1250 p s g 1000
                  (mkVector3 (#0) (#8) (#20))%js eq_refl eq_refl) as [H _].
    destruct (H eq_refl) as [Hc _]. rewrite Hc. reflexivity.
  - pose proof (camera_shake_frame 1500 p s g 1000
                  (mkVector3 (#0) (#8) (#20))%js eq_refl eq_refl) as [_ H].
    destruct (H eq_refl) as [Hc _]. exact Hc.
Defined.

(* ====================================================================== *)
(** * Further properties of the components *)
(* ====================================================================== *)

(** ** The random utilities *)

(** X1.  For finite bounds [lo <= hi] whose difference is at most
    [Number.MAX_VALUE] and a [Math.random()] in [0, 1), [randomRange(lo,
    hi)] is a finite number from [lo] to [hi], both included; it makes one
    draw. *)
Theorem randomRange_within (lo hi : Q) (g : Rng)
  (Hbounds : (lo <= hi)%Q) (Hdiff : (hi - lo <= MAX_VALUE)%Q)
  (Hunit : unit_interval (tape g)) :
  exists r : Q,
    randomRange (JS.Fin lo) (JS.Fin hi) g =
      (JS.Fin r, mkRng (tape g) (S (cursor g))) /\
    (lo <= r /\ r <= hi)%Q.
Proof.
  destruct (Hunit (cursor g)) as [H0 H1].
  eexists. split; [reflexivity|].
  set (t := tape g (cursor g)) in *.
  assert (Ha : (0 <= t * (hi - lo))%Q) by (apply Qmult_le_0_compat; lra).
  assert (Hb : (0 <= (1 - t) * (hi - lo))%Q) by (apply Qmult_le_0_compat; lra).
  split; lra.
Qed.

Lemma randomRange_within_witness :
  exists r : Q,
    randomRange (#0.7)%js (#1.3)%js (mkRng (fun _ => 0.25%Q) 0) =
      (JS.Fin r, mkRng (fun _ => 0.25%Q) 1) /\
    (0.7 <= r /\ r <= 1.3)%Q.
Proof.
  apply (randomRange_within 0.7 1.3 (mkRng (fun _ => 0.25%Q) 0)).
  - discriminate.
  - vm_compute. discriminate.
  - intros n. cbn. split; [discriminate | reflexivity].
Defined.



(** ** The easing functions *)



(** ** Progress of a timed effect *)

(** The quotient [e / 1000 / l], or [e / d], of a clock difference by a
    positive finite length is finite. *)
Lemma seconds_ratio_finite (e : Z) (l : Q) :
  (0 < l)%Q ->
  (JS.of_Z e / #1000 / JS.Fin l)%js = JS.Fin (inject_Z e / 1000 / l).
Proof.
  intros Hl. unfold JS.of_Z. cbn.
  destruct (Qeq_bool l 0) eqn:Hz; [|reflexivity].
  apply Qeq_bool_iff in Hz. lra.
Qed.

Lemma millis_ratio_finite (e : Z) (d : Q) :
  (0 < d)%Q -> (JS.of_Z e / JS.Fin d)%js = JS.Fin (inject_Z e / d).
Proof.
  intros Hd. unfold JS.of_Z. cbn.
  destruct (Qeq_bool d 0) eqn:Hz; [|reflexivity].
  apply Qeq_bool_iff in Hz. lra.
Qed.

(** A quotient by a positive number against 0 and 1. *)
Lemma ratio_bounds (u d : Q) :
  (0 < d)%Q ->
  ((0 <= u)%Q -> (0 <= u / d)%Q) /\
  ((1 <= u / d)%Q <-> (d <= u)%Q).
Proof.
  intros Hd.
  assert (Hd' : ~ (d == 0)%Q) by lra.
  pose proof (Qmult_div_r u d Hd') as Hm.
  set (w := (u / d)%Q) in *.
  split; [|split].
  - intros Hu. destruct (Qlt_le_dec w 0) as [Hneg | Hpos]; [|exact Hpos].
    assert (H : (0 < d * (- w))%Q) by (apply Qmult_lt_0_compat; lra).
    lra.
  - intros Hw.
    assert (H : (0 <= d * (w - 1))%Q) by (apply Qmult_le_0_compat; lra).
    lra.
  - intros Hu. destruct (Qlt_le_dec w 1) as [Hlt | Hge]; [|exact Hge].
    assert (H : (0 < d * (1 - w))%Q) by (apply Qmult_lt_0_compat; lra).
    lra.
Qed.

Lemma seconds_ratio_bounds (e : Z) (l : Q) :
  (0 < l)%Q ->
  ((0 <= e)%Z -> (0 <= inject_Z e / 1000 / l)%Q) /\
  ((1 <= inject_Z e / 1000 / l)%Q <-> (l * 1000 <= inject_Z e)%Q).
Proof.
  intros Hl.
  destruct (ratio_bounds (inject_Z e / 1000) l Hl) as [H0 H1].
  assert (Hk : ~ (1000 == 0)%Q) by discriminate.
  pose proof (Qmult_div_r (inject_Z e) 1000 Hk) as Hm.
  split.
  - intros He. apply H0.
    assert (Hz : (0 <= inject_Z e)%Q)
      by (change 0%Q with (inject_Z 0); now rewrite <- Zle_Qle).
    lra.
  - rewrite H1. split; intros H; lra.
Qed.

(** ** [ExplosionParticle]: completion and appearance *)

(** X4.  A particle with a finite positive lifetime [l] (in seconds) calls
    [onComplete] in a frame exactly when at least [1000 l] milliseconds
    have passed since its creation, and such a frame changes nothing of the
    particle; an earlier frame does not call it. *)
Theorem particle_completes_at_lifetime (now : Z) (delta : num)
  (p : ExplosionParticle.Props) (s : ExplosionParticle.State) (l : Q)
  (Hl : ExplosionParticle.lifetime p = JS.Fin l) (Hpos : (0 < l)%Q) :
  (snd (ExplosionParticle.frame now delta p s) = true <->
   (l * 1000 <= inject_Z (now - ExplosionParticle.startTime s))%Q) /\
  (snd (ExplosionParticle.frame now delta p s) = true ->
   fst (ExplosionParticle.frame now delta p s) = s).
Proof.
  rewrite frame_fired.
  unfold ExplosionParticle.progress, ExplosionParticle.elapsed.
  rewrite Hl, (seconds_ratio_finite _ l Hpos).
  split.
  - unfold JS.geb; cbn. rewrite Qle_bool_iff.
    apply (seconds_ratio_bounds _ l Hpos).
  - intros H. unfold ExplosionParticle.frame, ExplosionParticle.progress,
      ExplosionParticle.elapsed.
    rewrite Hl, (seconds_ratio_finite _ l Hpos), H. reflexivity.
Qed.

Lemma particle_completes_at_lifetime_witness :
  let p := ExplosionParticle.mkProps Vec.zero
             (mkVector3 (#0) (#1) (#0))%js (#10)%js (#0.3)%js
             (Some "#ff8800") (#0.5)%js "fire" in
  let s := ExplosionParticle.mount 1000 p in
  snd (ExplosionParticle.frame 1500 (#0.016)%js p s) = true.
Proof.
  intros p s.
  apply (particle_completes_at_lifetime 1500 (#0.016)%js p s 0.5 eq_refl eq_refl).
  discriminate.
Defined.

(** X5.  In a frame that does not complete a particle of finite positive
    lifetime and finite size [size >= 0], at or after its creation, the
    opacity is set to a number in (0, 1] and the three scale components to
    one number that is at least 0.01, at least [0.3 * size], and at most
    [size] unless it is the floor 0.01. *)
Theorem particle_appearance_bounds (now : Z) (delta : num)
  (p : ExplosionParticle.Props) (s : ExplosionParticle.State) (l sz : Q)
  (Hl : ExplosionParticle.lifetime p = JS.Fin l) (Hpos : (0 < l)%Q)
  (Hsz : ExplosionParticle.size p = JS.Fin sz) (Hsz0 : (0 <= sz)%Q)
  (Hnow : (ExplosionParticle.startTime s <= now)%Z)
  (Hrun : snd (ExplosionParticle.frame now delta p s) = false) :
  exists o c : Q,
    ExplosionParticle.opacity (fst (ExplosionParticle.frame now delta p s))
      = JS.Fin o /\
    ExplosionParticle.scale (fst (ExplosionParticle.frame now delta p s))
      = Vec.setScalar (JS.Fin c) /\
    (0 < o /\ o <= 1)%Q /\
    (0.01 <= c /\ 0.3 * sz <= c /\ (c <= sz \/ c == 0.01))%Q.
Proof.
  rewrite frame_fired in Hrun.
  rewrite (frame_running now delta p s Hrun).
  cbn [fst ExplosionParticle.opacity ExplosionParticle.scale].
  unfold ExplosionParticle.progress, ExplosionParticle.elapsed in *.
  rewrite Hl, Hsz, (seconds_ratio_finite _ l Hpos) in *.
  destruct (seconds_ratio_bounds (now - ExplosionParticle.startTime s) l Hpos)
    as [H0 H1].
  specialize (H0 ltac:(lia)).
  set (w := (inject_Z (now - ExplosionParticle.startTime s) / 1000 / l)%Q) in *.
  assert (Hw1 : (w < 1)%Q).
  { unfold JS.geb in Hrun; cbn in Hrun.
    apply not_true_iff_false in Hrun. rewrite Qle_bool_iff in Hrun. lra. }
  assert (Hp : (0 <= sz * w)%Q) by (apply Qmult_le_0_compat; lra).
  assert (Hq : (0 <= sz * (1 - w))%Q) by (apply Qmult_le_0_compat; lra).
  cbn.
  destruct (Qle_bool 0 (1 - w)) eqn:Ho;
    [|apply not_true_iff_false in Ho; rewrite Qle_bool_iff in Ho; lra].
  destruct (Qle_bool 0.01 (sz * (1 - w * 0.7))) eqn:Hc.
  - apply Qle_bool_iff in Hc. do 2 eexists.
    split; [reflexivity|]. split; [reflexivity|].
    split; [lra|]. split; [lra|]. split; [lra|]. left. lra.
  - apply not_true_iff_false in Hc. rewrite Qle_bool_iff in Hc.
    do 2 eexists. split; [reflexivity|]. split; [reflexivity|].
    split; [lra|]. split; [lra|]. split; [lra|]. right. reflexivity.
Qed.

Lemma particle_appearance_bounds_witness :
  let p := ExplosionParticle.mkProps Vec.zero
             (mkVector3 (#0) (#1) (#0))%js (#10)%js (#0.3)%js
             (Some "#ff8800") (#0.5)%js "fire" in
  let s := ExplosionParticle.mount 1000 p in
  exists o c : Q,
    ExplosionParticle.opacity (fst (ExplosionParticle.frame 1250 (#0.016)%js p s))
      = JS.Fin o /\
    ExplosionParticle.scale (fst (ExplosionParticle.frame 1250 (#0.016)%js p s))
      = Vec.setScalar (JS.Fin c) /\
    (0 < o /\ o <= 1)%Q /\
    (0.01 <= c /\ 0.3 * 0.3 <= c /\ (c <= 0.3 \/ c == 0.01))%Q.
Proof.
  intros p s.
  apply (particle_appearance_bounds 1250 (#0.016)%js p s 0.5 0.3
           eq_refl eq_refl eq_refl); [discriminate | discriminate | reflexivity].
Defined.

(** ** The particle batch: attributes and identifiers *)




Section ParticleAttributes.

Variable normalize : Vector3 -> Vector3.
Variable cfg : ClassConfig.



End ParticleAttributes.

Lemma particle_loop_ids normalize cfg (n : nat) :
  forall (i : Z) (acc : list Explosion.ParticleRecord * Z) (g : Rng),
    let out := fst (for_loop n i (Explosion.new_particle normalize cfg) acc g) in
    map Explosion.p_id (fst out) =
      map Explosion.p_id (fst acc) ++ Zrange (snd acc) n /\
    snd out = (snd acc + Z.of_nat n)%Z.
Proof.
  induction n as [|n IH]; intros i acc g; cbn [for_loop Zrange].
  - unfold ret; cbn. rewrite app_nil_r. split; [reflexivity | lia].
  - unfold bind.
    destruct (new_particle_spec normalize cfg i acc g) as (r & Hr & Hid & _).
    destruct (Explosion.new_particle normalize cfg i acc g) as [acc1 g1].
    cbn in Hr. subst acc1.
    specialize (IH (i + 1)%Z (fst acc ++ [r], (snd acc + 1)%Z) g1).
    cbn [fst snd] in IH. destruct IH as [IH1 IH2]. split.
    + rewrite IH1, map_app, <- app_assoc. cbn. now rewrite Hid.
    + rewrite IH2. lia.
Qed.

Lemma wreckage_batch_draws cfg :
  draws (Z.to_nat (wreckagePieces cfg) * List.length (wreckageScale cfg))
    (Explosion.wreckage_batch cfg).
Proof.
  apply for_loop_draws. intros i acc g. now rewrite new_wreckage_spec.
Qed.

(** The state [init] returns, field by field, with the state of the random
    source at the start of each loop. *)
Lemma init_fields normalize cfg (sw : bool) (s : Explosion.State) (g : Rng) :
  let g1 := mkRng (tape g) (Z.to_nat (particleCount cfg) * 7 + cursor g) in
  let g2 :=
    if sw
    then mkRng (tape g)
           (Z.to_nat (wreckagePieces cfg) * List.length (wreckageScale cfg)
            + cursor g1)
    else g1 in
  let pc :=
    fst (Explosion.particle_batch normalize cfg
           (Explosion.particleIdCounter s) g) in
  fst (Explosion.init normalize cfg sw s g) =
    Explosion.mkState (fst pc)
      (fst (Explosion.shockwave_batch cfg g1))
      (if sw then fst (Explosion.wreckage_batch cfg g1)
       else Explosion.wreckage s)
      (Explosion.flash s) (Explosion.secondaryExplosions s)
      (if chainExplosions cfg then fst (Explosion.chain_batch cfg g2)
       else Explosion.chainExplosions_ s)
      (Explosion.isComplete s) (Explosion.startTime s) (snd pc).
Proof.
  intros g1 g2 pc. unfold Explosion.init, bind.
  pose proof (for_loop_draws 7 (Explosion.new_particle normalize cfg)
                (new_particle_draws normalize cfg)
                (Z.to_nat (particleCount cfg)) 0
                ([], Explosion.particleIdCounter s) g) as Hp.
  fold (Explosion.particle_batch normalize cfg (Explosion.particleIdCounter s))
    in Hp.
  subst pc.
  destruct (Explosion.particle_batch normalize cfg _ g) as [pc g1'].
  cbn [snd] in Hp. subst g1'. fold g1.
  pose proof (for_loop_draws 0 (Explosion.new_shockwave cfg)
                (new_shockwave_draws cfg)
                (Z.to_nat SHOCKWAVE.RING_COUNT) 0 [] g1) as Hs.
  fold (Explosion.shockwave_batch cfg) in Hs.
  destruct (Explosion.shockwave_batch cfg g1) as [sws g1']. cbn [snd fst] in *.
  assert (Hg1 : g1' = g1) by (rewrite Hs; reflexivity). clear Hs. subst g1'.
  destruct sw.
  - pose proof (wreckage_batch_draws cfg g1) as Hw.
    destruct (Explosion.wreckage_batch cfg g1) as [wr g2']. cbn [snd fst] in *.
    assert (Hg2 : g2' = g2) by (rewrite Hw; reflexivity). clear Hw. subst g2'.
    destruct (chainExplosions cfg); unfold ret;
      [destruct (Explosion.chain_batch cfg g2)|]; reflexivity.
  - unfold ret. cbn [fst snd]. subst g2.
    destruct (chainExplosions cfg); unfold ret;
      [destruct (Explosion.chain_batch cfg g1)|]; reflexivity.
Qed.

(** The ids of the batch [init] creates. *)
Lemma init_particle_ids normalize cfg (sw : bool)
  (s : Explosion.State) (g : Rng) :
  map Explosion.p_id
    (Explosion.particles (fst (Explosion.init normalize cfg sw s g)))
  = Zrange (Explosion.particleIdCounter s) (Z.to_nat (particleCount cfg)) /\
  NoDup (map Explosion.p_id
           (Explosion.particles (fst (Explosion.init normalize cfg sw s g)))).
Proof.
  assert (H : map Explosion.p_id
                (Explosion.particles (fst (Explosion.init normalize cfg sw s g)))
              = Zrange (Explosion.particleIdCounter s)
                  (Z.to_nat (particleCount cfg))).
  { rewrite init_fields. cbn [Explosion.particles].
    exact (proj1 (particle_loop_ids normalize cfg _ 0
                    ([], Explosion.particleIdCounter s) g)). }
  split; [exact H|]. rewrite H. apply sorted_NoDup, Zrange_sorted.
Qed.



(** X7.  [init] numbers the particles it creates with the successive
    values of [particleIdCounter], starting at its current value, and moves
    the counter past them: the ids of one batch are pairwise distinct, and
    running [init] again, on the state the first run left, gives ids that
    none of the first batch has. *)
Theorem particle_ids_never_reused (normalize : Vector3 -> Vector3)
  (cfg cfg' : ClassConfig) (sw sw' : bool) (s : Explosion.State) (g g' : Rng) :
  let s1 := fst (Explosion.init normalize cfg sw s g) in
  let s2 := fst (Explosion.init normalize cfg' sw' s1 g') in
  let ids1 := map Explosion.p_id (Explosion.particles s1) in
  let ids2 := map Explosion.p_id (Explosion.particles s2) in
  ids1 = Zrange (Explosion.particleIdCounter s) (Z.to_nat (particleCount cfg)) /\
  Explosion.particleIdCounter s1 =
    (Explosion.particleIdCounter s + Z.of_nat (Z.to_nat (particleCount cfg)))%Z /\
  NoDup (ids1 ++ ids2).
Proof.
  intros s1 s2 ids1 ids2.
  assert (H1 : forall c sw0 s0 g0,
             map Explosion.p_id
               (Explosion.particles (fst (Explosion.init normalize c sw0 s0 g0)))
             = Zrange (Explosion.particleIdCounter s0)
                 (Z.to_nat (particleCount c)) /\
             Explosion.particleIdCounter
               (fst (Explosion.init normalize c sw0 s0 g0))
             = (Explosion.particleIdCounter s0
                + Z.of_nat (Z.to_nat (particleCount c)))%Z).
  { intros c sw0 s0 g0. rewrite init_fields.
    cbn [Explosion.particles Explosion.particleIdCounter].
    exact (particle_loop_ids normalize c _ 0
             ([], Explosion.particleIdCounter s0) g0). }
  destruct (H1 cfg sw s g) as [Ha Hb].
  destruct (H1 cfg' sw' s1 g') as [Hc _].
  fold s1 in Ha, Hb. fold s2 in Hc. fold ids1 in Ha. fold ids2 in Hc.
  split; [exact Ha|]. split; [exact Hb|].
  rewrite Ha, Hc, Hb, <- Zrange_app.
  apply sorted_NoDup, Zrange_sorted.
Qed.

(** ** Removing a particle *)

Lemma filter_all {A} (f : A -> bool) (l : list A) :
  (forall a, In a l -> f a = true) -> filter f l = l.
Proof.
  induction l as [|a l IH]; intros H; cbn; [reflexivity|].
  rewrite (H a (or_introl eq_refl)). f_equal. apply IH.
  intros b Hb. apply H. now right.
Qed.

Lemma filter_out_one {A} (key : A -> Z) (k : Z) (l : list A) :
  NoDup (map key l) -> In k (map key l) ->
  List.length (filter (fun a => negb (key a =? k)%Z) l) = pred (List.length l).
Proof.
  induction l as [|a l IH]; intros Hnd Hin; [contradiction|].
  cbn [map] in Hnd, Hin. inversion Hnd as [|? ? Hnot Hnd']; subst.
  cbn [filter List.length pred].
  destruct (Z.eqb_spec (key a) k) as [Heq | Hne]; cbn [negb].
  - apply (f_equal (@List.length A)). apply filter_all.
    intros b Hb. apply negb_true_iff, Z.eqb_neq. intros Hk.
    apply Hnot. rewrite Heq, <- Hk. now apply in_map.
  - destruct Hin as [Hin | Hin]; [contradiction|].
    cbn [List.length]. rewrite (IH Hnd' Hin).
    destruct l; [contradiction | reflexivity].
Qed.

(** X8.  [removeParticle(id)] keeps exactly the particles with another id,
    in their order; called twice it does what it does once, and for an id
    no particle has it changes nothing.  On the batch [init] created, an id
    of the batch removes one particle and no more. *)
Theorem removeParticle_exact (normalize : Vector3 -> Vector3)
  (cfg : ClassConfig) (sw : bool) (s s0 : Explosion.State) (g : Rng) (id : Z) :
  let s1 := fst (Explosion.init normalize cfg sw s g) in
  (forall r : Explosion.ParticleRecord,
     In r (Explosion.particles (Explosion.removeParticle id s0)) <->
     In r (Explosion.particles s0) /\ Explosion.p_id r <> id) /\
  Explosion.removeParticle id (Explosion.removeParticle id s0) =
    Explosion.removeParticle id s0 /\
  (~ In id (map Explosion.p_id (Explosion.particles s0)) ->
   Explosion.removeParticle id s0 = s0) /\
  (In id (map Explosion.p_id (Explosion.particles s1)) ->
   List.length (Explosion.particles (Explosion.removeParticle id s1)) =
     pred (Z.to_nat (particleCount cfg))).
Proof.
  intros s1. split; [|split; [|split]].
  - intros r. cbn. rewrite filter_In, negb_true_iff, Z.eqb_neq. reflexivity.
  - unfold Explosion.removeParticle; cbn. f_equal.
    apply filter_all. intros r Hr. apply filter_In in Hr. tauto.
  - intros Hnot. destruct s0; unfold Explosion.removeParticle; cbn in *.
    f_equal. apply filter_all. intros r Hr.
    apply negb_true_iff, Z.eqb_neq. intros Hk. apply Hnot.
    rewrite <- Hk. now apply in_map.
  - intros Hin. cbn [Explosion.removeParticle Explosion.particles].
    destruct (init_particle_ids normalize cfg sw s g) as [Hids Hnd].
    fold s1 in Hids, Hnd.
    rewrite (filter_out_one Explosion.p_id id _ Hnd Hin).
    rewrite <- (length_map Explosion.p_id), Hids, Zrange_length. reflexivity.
Qed.

Lemma removeParticle_exact_witness :
  let s1 := fst (Explosion.init (fun v => v) CLASSES.SMALL true
                   (Explosion.mount 0) (mkRng (fun _ => 0.5%Q) 0)) in
  List.length (Explosion.particles (Explosion.removeParticle 3 s1)) = 14%nat.
Proof.
  intros s1.
  destruct (removeParticle_exact (fun v => v) CLASSES.SMALL true
              (Explosion.mount 0) (Explosion.mount 0)
              (mkRng (fun _ => 0.5%Q) 0) 3) as (_ & _ & _ & H).
  apply H. vm_compute. tauto.
Defined.

(** ** The shockwave and chain batches *)

Lemma shockwave_batch_spec cfg (g : Rng) :
  fst (Explosion.shockwave_batch cfg g) =
    [Explosion.mkShockwave 0 0 (shockwaveScale cfg * (#1 - JS.of_Z 0 * #0.2))%js;
     Explosion.mkShockwave 1 80 (shockwaveScale cfg * (#1 - JS.of_Z 1 * #0.2))%js].
Proof. reflexivity. Qed.

(** X9.  Whatever the state before, the wreckage flag and the random
    draws, [init] sets the shockwave list to two records: ids 0 and 1,
    delays 0 and 80 ms, and, for a finite [shockwaveScale], scales equal to
    it and to 0.8 times it; each is drawn as a ring of duration 400 ms with
    that delay and that maximal scale. *)
Theorem init_shockwaves (normalize : Vector3 -> Vector3) (cfg : ClassConfig)
  (sw : bool) (s : Explosion.State) (g : Rng) :
  let waves :=
    Explosion.shockwaves (fst (Explosion.init normalize cfg sw s g)) in
  map Explosion.s_id waves = [0; 1]%Z /\
  map Explosion.s_delay waves = [0; 80]%Z /\
  map (fun w => ShockwaveRing.delay (ExplosionRender.shockwave_props w)) waves
    = [0; 80]%Z /\
  map (fun w => ShockwaveRing.duration (ExplosionRender.shockwave_props w)) waves
    = [#400; #400]%js /\
  (forall q : Q,
     shockwaveScale cfg = JS.Fin q ->
     Forall2 JS.eqv
       (map (fun w => ShockwaveRing.maxScale (ExplosionRender.shockwave_props w))
          waves)
       [JS.Fin q; JS.Fin (0.8 * q)]).
Proof.
  intros waves. subst waves. rewrite init_fields.
  cbn [Explosion.shockwaves]. rewrite shockwave_batch_spec.
  repeat split; try reflexivity.
  intros q Hq.
  cbn [map ExplosionRender.shockwave_props ShockwaveRing.maxScale
       Explosion.s_scale].
  rewrite Hq. unfold JS.of_Z.
  change (inject_Z 0) with 0%Q. change (inject_Z 1) with 1%Q.
  cbn [JS.mul JS.sub JS.eqv].
  constructor; [cbn [JS.eqv]; lra|]. constructor; [cbn [JS.eqv]; lra|].
  constructor.
Qed.

Lemma init_shockwaves_witness :
  Forall2 JS.eqv
    (map (fun w => ShockwaveRing.maxScale (ExplosionRender.shockwave_props w))
       (Explosion.shockwaves
          (fst (Explosion.init (fun v => v) CLASSES.SMALL true
                  (Explosion.mount 0) (mkRng (fun _ => 0.5%Q) 0)))))
    [(#3)%js; JS.Fin (0.8 * 3)].
Proof.
  destruct (init_shockwaves (fun v => v) CLASSES.SMALL true
              (Explosion.mount 0) (mkRng (fun _ => 0.5%Q) 0))
    as (_ & _ & _ & _ & H).
  apply (H 3%Q). reflexivity.
Defined.

Lemma new_chain_spec cfg i acc g :
  Explosion.new_chain cfg i acc g =
    (acc ++ [Explosion.mkChain i ((i + 1) * chainDelay cfg)%Z
               (chain_offset_of_draws (tape g) (cursor g))],
     mkRng (tape g) (3 + cursor g)).
Proof. reflexivity. Qed.

Lemma chain_loop_spec cfg (n : nat) :
  forall (i : Z) (acc : list Explosion.ChainRecord) (g : Rng),
    fst (for_loop n i (Explosion.new_chain cfg) acc g) =
      acc ++ map (fun k =>
                    Explosion.mkChain (i + Z.of_nat k)
                      ((i + Z.of_nat k + 1) * chainDelay cfg)%Z
                      (chain_offset_of_draws (tape g) (cursor g + k * 3)))
               (seq 0 n).
Proof.
  induction n as [|n IH]; intros i acc g; cbn [for_loop seq map].
  - unfold ret; cbn. now rewrite app_nil_r.
  - unfold bind. rewrite new_chain_spec, IH, <- app_assoc. cbn [app].
    f_equal. f_equal.
    + f_equal; [lia | f_equal; lia | f_equal; cbn; lia].
    + rewrite <- seq_shift, map_map. apply map_ext. intros k. cbn [tape cursor].
      f_equal; [lia | f_equal; lia | f_equal; lia].
Qed.

Lemma chain_offset_in_box (t : nat -> Q) (c : nat) :
  unit_interval t -> in_box 3 2 3 (chain_offset_of_draws t c).
Proof.
  intros Hunit. unfold chain_offset_of_draws, in_box.
  destruct (spread_within (t c) 3 (Hunit _)) as (vx & Hx & Bx); [discriminate|].
  destruct (spread_within (t (S c)) 2 (Hunit _)) as (vy & Hy & By); [discriminate|].
  destruct (spread_within (t (S (S c))) 3 (Hunit _)) as (vz & Hz & Bz);
    [discriminate|].
  exists vx, vy, vz. rewrite Hx, Hy, Hz. auto.
Qed.

(** X10.  For a class with [chainExplosions], [init] sets the chain list
    to [chainCount] records with ids 0, 1, ... and delays [chainDelay],
    [2 chainDelay], ...; with [Math.random()] in [0, 1) every offset is a
    finite vector within 3 of the origin horizontally and in depth and
    within 2 vertically.  For a class without [chainExplosions] the chain
    list is left as it was. *)
Theorem init_chain_batch (normalize : Vector3 -> Vector3) (cfg : ClassConfig)
  (sw : bool) (s : Explosion.State) (g : Rng) :
  let chains :=
    Explosion.chainExplosions_ (fst (Explosion.init normalize cfg sw s g)) in
  (chainExplosions cfg = false -> chains = Explosion.chainExplosions_ s) /\
  (chainExplosions cfg = true ->
   map Explosion.c_id chains = Zrange 0 (Z.to_nat (chainCount cfg)) /\
   map Explosion.c_delay chains =
     map (fun i => ((i + 1) * chainDelay cfg)%Z)
       (Zrange 0 (Z.to_nat (chainCount cfg))) /\
   (unit_interval (tape g) ->
    Forall (fun ch => in_box 3 2 3 (Explosion.c_offset ch)) chains)).
Proof.
  intros chains. subst chains. rewrite init_fields.
  cbn [Explosion.chainExplosions_].
  split; intros Hc; rewrite Hc; [reflexivity|].
  unfold Explosion.chain_batch. rewrite chain_loop_spec. cbn [app].
  generalize (Z.to_nat (chainCount cfg)) as n.
  set (g2 := if sw then _ else _).
  assert (Ht : tape g2 = tape g) by (subst g2; destruct sw; reflexivity).
  intros n. rewrite !map_map. cbn [Explosion.c_id Explosion.c_delay].
  assert (Hz : forall (h : Z -> Z) (m : nat) (j : Z),
             map (fun k => h (j + Z.of_nat k)%Z) (seq 0 m) = map h (Zrange j m)).
  { intros h m. induction m as [|m IH]; intros j; [reflexivity|].
    cbn [seq map Zrange]. f_equal; [f_equal; lia|].
    rewrite <- seq_shift, map_map, <- IH. apply map_ext. intros k.
    f_equal. lia. }
  split; [|split].
  - rewrite (Hz (fun i => i) n 0%Z). apply map_id.
  - apply (Hz (fun i => ((i + 1) * chainDelay cfg)%Z) n 0%Z).
  - intros Hunit. apply Forall_forall. intros ch Hin.
    apply in_map_iff in Hin. destruct Hin as (k & <- & _).
    cbn [Explosion.c_offset]. apply chain_offset_in_box. now rewrite Ht.
Qed.

Lemma init_chain_batch_witness :
  map Explosion.c_delay
    (Explosion.chainExplosions_
       (fst (Explosion.init (fun v => v) CLASSES.BOSS true (Explosion.mount 0)
               (mkRng (fun _ => 0.5%Q) 0))))
  = map (fun i => ((i + 1) * chainDelay CLASSES.BOSS)%Z)
      (Zrange 0 (Z.to_nat (chainCount CLASSES.BOSS))).
Proof.
  destruct (init_chain_batch (fun v => v) CLASSES.BOSS true (Explosion.mount 0)
              (mkRng (fun _ => 0.5%Q) 0)) as [_ H].
  destruct (H eq_refl) as (_ & Hd & _). exact Hd.
Defined.

(** ** Re-running [init], and nested explosions *)

(** X11.  [init] rebuilds the particle and shockwave lists but leaves the
    start time, the completion flag, the flash flag and the secondary
    explosions as they are: when the effect runs again the explosion still
    completes in the same frame as it would have.  Without [showWreckage]
    it leaves the wreckage list as it is too. *)
Theorem init_keeps_clock (normalize : Vector3 -> Vector3)
  (cfg cfg' : ClassConfig) (sw : bool) (s : Explosion.State) (g : Rng)
  (now : Z) :
  let s1 := fst (Explosion.init normalize cfg sw s g) in
  Explosion.startTime s1 = Explosion.startTime s /\
  Explosion.isComplete s1 = Explosion.isComplete s /\
  Explosion.flash s1 = Explosion.flash s /\
  Explosion.secondaryExplosions s1 = Explosion.secondaryExplosions s /\
  snd (Explosion.frame now cfg' s1) = snd (Explosion.frame now cfg' s) /\
  Explosion.isComplete (fst (Explosion.frame now cfg' s1)) =
    Explosion.isComplete (fst (Explosion.frame now cfg' s)) /\
  Explosion.wreckage (fst (Explosion.init normalize cfg false s g)) =
    Explosion.wreckage s.
Proof.
  intros s1. subst s1. rewrite !frame_spec, !init_fields. cbn. auto 10.
Qed.

(** X12.  A chain explosion renders nothing before its timer has fired
    and then an [Explosion] at its offset; a secondary explosion is an
    [Explosion] at the recorded hit position.  Both run with class SMALL
    and without wreckage: their [init] creates 15 particles and no
    wreckage, no chain and no secondary record, so neither can start a
    further explosion. *)
Theorem nested_explosions_spawn_nothing (normalize : Vector3 -> Vector3)
  (chain : Explosion.ChainRecord) (exp : Explosion.SecondaryRecord)
  (now : Z) (g : Rng) :
  let nothing_more (p : Explosion.Props) :=
    let s := fst (Explosion.init normalize (Explosion.config p)
                    (Explosion.showWreckage p) (Explosion.mount now) g) in
    Explosion.config p = CLASSES.SMALL /\
    List.length (Explosion.particles s) = 15%nat /\
    Explosion.wreckage s = [] /\
    Explosion.chainExplosions_ s = [] /\
    Explosion.secondaryExplosions s = [] in
  let chained :=
    Explosion.mkProps (Explosion.c_offset chain)
      (mkVector3 (#0) (#0) (#(-1)))%js "SMALL" false WRECKAGE.GROUND_Y in
  DelayedExplosion.render (ExplosionRender.chain_props chain)
    DelayedExplosion.mount = None /\
  DelayedExplosion.render (ExplosionRender.chain_props chain)
    (DelayedExplosion.timeout DelayedExplosion.mount) = Some chained /\
  Explosion.position (ExplosionRender.secondary_props exp) =
    Explosion.e_position exp /\
  nothing_more chained /\
  nothing_more (ExplosionRender.secondary_props exp).
Proof.
  intros nothing_more chained.
  assert (H : forall p, Explosion.explosionClass p = "SMALL" ->
                        Explosion.showWreckage p = false -> nothing_more p).
  { intros p Hc Hw. unfold nothing_more.
    assert (Hcfg : Explosion.config p = CLASSES.SMALL)
      by (unfold Explosion.config; rewrite Hc; reflexivity).
    rewrite Hcfg, Hw. split; [reflexivity|]. split.
    - rewrite <- (length_map Explosion.p_id).
      rewrite (proj1 (init_particle_ids normalize CLASSES.SMALL false _ g)).
      apply Zrange_length.
    - rewrite init_fields. repeat split. }
  split; [reflexivity|]. split; [reflexivity|]. split.
  { cbn. destruct (Explosion.e_position exp); reflexivity. }
  split; apply H; reflexivity.
Qed.

(** ** [FallingWreckage]: what a frame keeps, and the smoke trail *)

(** Everything a frame does to a piece that has not landed. *)
Lemma wreckage_frame_spec (now : Z) (delta : num)
  (p : FallingWreckage.Props) (s : FallingWreckage.State) (g : Rng) :
  FallingWreckage.hasLanded s = false ->
  let v' :=
    Vec.set_y (FallingWreckage.velocity s)
      (y (FallingWreckage.velocity s) - WRECKAGE.GRAVITY * delta)%js in
  let position' :=
    Vec.add (FallingWreckage.position s) (Vec.multiplyScalar v' delta) in
  let emits := (30 <? now - FallingWreckage.lastSmokeTime s)%Z in
  let landed := JS.leb (y position') (FallingWreckage.groundY p) in
  fst (FallingWreckage.frame now delta p s g) =
    (FallingWreckage.mkState position'
       (Vec.add (FallingWreckage.rotation s)
          (Vec.multiplyScalar (FallingWreckage.rotationSpeed s) delta))
       v' (FallingWreckage.rotationSpeed s)
       (if emits then now else FallingWreckage.lastSmokeTime s)
       (FallingWreckage.smokeParticles s ++
          if emits then [smoke_of_draws now position' (tape g) (cursor g)]
          else [])
       landed,
     if landed then [position'] else []).
Proof.
  intros Hl v' position' emits landed.
  unfold FallingWreckage.frame. rewrite Hl.
  unfold bind, FallingWreckage.emit_smoke.
  cbn [FallingWreckage.lastSmokeTime FallingWreckage.smokeParticles
       FallingWreckage.position FallingWreckage.rotation
       FallingWreckage.velocity FallingWreckage.rotationSpeed
       FallingWreckage.hasLanded].
  assert (He : JS.gtb (JS.of_Z (now - FallingWreckage.lastSmokeTime s))
                 (WRECKAGE.SMOKE_EMIT_RATE * #1000)%js = emits).
  { subst emits. unfold JS.gtb, JS.of_Z. cbn. unfold JS.Qlt_bool, Qle_bool. cbn.
    destruct (Z.leb_spec ((now - FallingWreckage.lastSmokeTime s) * 100000) 3000000);
      destruct (Z.ltb_spec 30 (now - FallingWreckage.lastSmokeTime s));
      cbn; try reflexivity; lia. }
  rewrite He. fold v'. fold position'. fold landed.
  destruct emits; cbn; destruct landed; cbn; rewrite ?app_nil_r; reflexivity.
Qed.






(** ** [FallingWreckage]: every piece lands *)



Section Falling.

Variables (p : FallingWreckage.Props) (G dmin : Q).
Hypothesis HG : FallingWreckage.groundY p = JS.Fin G.
Hypothesis Hdmin : (0 < dmin)%Q.






End Falling.



(** ** [useExplosionManager]: the list of explosions *)

Lemma NoDup_map_filter {A B} (f : A -> B) (h : A -> bool) (l : list A) :
  NoDup (map f l) -> NoDup (map f (filter h l)).
Proof.
  induction l as [|a l IH]; intros H; cbn; [constructor|].
  inversion H as [|? ? Hnot Hnd]; subst.
  destruct (h a); cbn; [|now apply IH].
  constructor; [|now apply IH].
  intros Hin. apply Hnot. apply in_map_iff in Hin.
  destruct Hin as (b & Hb & Hf). apply filter_In in Hf.
  apply in_map_iff. exists b. tauto.
Qed.

Lemma trigger_spec (a : Manager.Args) (s : Manager.State) :
  exists e : Manager.Entry,
    Manager.triggerExplosion a s =
      (Manager.explosionIdRef s,
       Manager.mkState (Manager.explosions s ++ [e])
         (Manager.explosionIdRef s + 1)) /\
    Manager.id e = Manager.explosionIdRef s /\
    Manager.position e = Manager.to_vector (Manager.a_position a) /\
    Manager.forwardVector e =
      Manager.to_vector
        (Manager.default (Manager.a_forwardVector a)
           (inl (mkVector3 (#0) (#0) (#(-1)))%js)) /\
    Manager.explosionClass e = Manager.default (Manager.a_explosionClass a) "MEDIUM" /\
    Manager.showWreckage e = Manager.default (Manager.a_showWreckage a) true /\
    Manager.groundY e = Manager.default (Manager.a_groundY a) WRECKAGE.GROUND_Y.
Proof. eexists. repeat split. Qed.

Lemma manager_ok_trigger (a : Manager.Args) (s : Manager.State) :
  (0 <= Manager.explosionIdRef s)%Z -> manager_ok s ->
  manager_ok (snd (Manager.triggerExplosion a s)).
Proof.
  intros H0 [Hnd Hall].
  destruct (trigger_spec a s) as (e & He & Hid & _). rewrite He.
  unfold manager_ok. cbn [snd Manager.explosions Manager.explosionIdRef].
  rewrite Forall_forall in Hall. split.
  - rewrite map_app. cbn [map].
    apply NoDup_app; [exact Hnd | repeat constructor; intros [] | ].
    intros k Hk [Hk' | []]. subst k.
    apply in_map_iff in Hk. destruct Hk as (e' & He' & Hin).
    specialize (Hall e' Hin). lia.
  - apply Forall_app. split.
    + apply Forall_forall. intros e' Hin. specialize (Hall e' Hin). lia.
    + constructor; [lia | constructor].
Qed.

Lemma manager_ok_remove (id0 : Z) (s : Manager.State) :
  manager_ok s -> manager_ok (Manager.removeExplosion id0 s).
Proof.
  intros [Hnd Hall]. split; cbn.
  - now apply NoDup_map_filter.
  - rewrite Forall_forall in *. intros e He. apply filter_In in He.
    apply Hall. tauto.
Qed.

Lemma manager_run_ok (ops : list Manager.Op) :
  forall s : Manager.State,
    (0 <= Manager.explosionIdRef s)%Z -> manager_ok s ->
    (0 <= Manager.explosionIdRef (snd (Manager.run ops s)))%Z /\
    manager_ok (snd (Manager.run ops s)).
Proof.
  induction ops as [|op rest IH]; intros s H0 Hok; cbn [Manager.run].
  - cbn. auto.
  - destruct op as [a | id0 |].
    + pose proof (manager_ok_trigger a s H0 Hok) as Hok'.
      destruct (trigger_spec a s) as (e & He & _). rewrite He in *.
      cbn [snd] in Hok'.
      match type of Hok' with manager_ok ?s1 => specialize (IH s1) end.
      cbn [Manager.explosionIdRef] in IH. specialize (IH ltac:(lia) Hok').
      destruct (Manager.run rest _) as [ids s2]. exact IH.
    + apply IH; [exact H0 | now apply manager_ok_remove].
    + apply IH; [exact H0|]. split; cbn; constructor.
Qed.

Lemma Zrange_In (n : nat) :
  forall i k : Z, (i <= k < i + Z.of_nat n)%Z -> In k (Zrange i n).
Proof.
  induction n as [|n IH]; intros i k Hk; [lia|]. cbn.
  destruct (Z.eq_dec i k) as [-> | Hne]; [now left | right].
  apply IH. lia.
Qed.

(** X16.  After any sequence of triggers, removals and clears on a fresh
    manager, the explosions of the list have pairwise distinct ids, each at
    least 0 and below the counter, and they are at most as many as the
    triggers. *)
Theorem manager_ids_distinct (ops : list Manager.Op) :
  let s := snd (Manager.run ops Manager.initial) in
  NoDup (map Manager.id (Manager.explosions s)) /\
  Forall (fun e => (0 <= Manager.id e < Manager.explosionIdRef s)%Z)
    (Manager.explosions s) /\
  (List.length (Manager.explosions s) <= triggers ops)%nat.
Proof.
  intros s.
  destruct (manager_run_ok ops Manager.initial) as [_ [Hnd Hall]].
  { cbn. lia. }
  { split; cbn; constructor. }
  split; [exact Hnd|]. split; [exact Hall|].
  rewrite <- (length_map Manager.id).
  assert (Hincl : incl (map Manager.id (Manager.explosions s))
                    (Zrange 0 (triggers ops))).
  { intros k Hk. apply in_map_iff in Hk. destruct Hk as (e & <- & He).
    rewrite Forall_forall in Hall. specialize (Hall e He).
    pose proof (proj2 (run_ids ops Manager.initial)) as Href.
    change (Manager.explosionIdRef Manager.initial) with 0%Z in Href.
    apply Zrange_In. lia. }
  rewrite <- (Zrange_length 0 (triggers ops)).
  apply NoDup_incl_length; assumption.
Qed.

(** X17.  In a manager reached from a fresh one, [removeExplosion] of the
    id a [triggerExplosion] has just returned gives back the list as it was
    before the trigger, while the counter stays advanced.  On any manager,
    [removeExplosion] keeps the other explosions in their order, is a no-op
    for an id that is not in the list and when repeated, and never touches
    the counter; [clearAllExplosions] empties the list and keeps the
    counter. *)
Theorem remove_after_trigger (ops : list Manager.Op) (a : Manager.Args)
  (s0 : Manager.State) (id0 : Z) :
  let s := snd (Manager.run ops Manager.initial) in
  let (i, s1) := Manager.triggerExplosion a s in
  Manager.explosions (Manager.removeExplosion i s1) = Manager.explosions s /\
  Manager.explosionIdRef (Manager.removeExplosion i s1) =
    (Manager.explosionIdRef s + 1)%Z /\
  (forall e : Manager.Entry,
     In e (Manager.explosions (Manager.removeExplosion id0 s0)) <->
     In e (Manager.explosions s0) /\ Manager.id e <> id0) /\
  Manager.removeExplosion id0 (Manager.removeExplosion id0 s0) =
    Manager.removeExplosion id0 s0 /\
  (~ In id0 (map Manager.id (Manager.explosions s0)) ->
   Manager.removeExplosion id0 s0 = s0) /\
  Manager.explosionIdRef (Manager.removeExplosion id0 s0) =
    Manager.explosionIdRef s0 /\
  Manager.clearAllExplosions s0 = Manager.mkState [] (Manager.explosionIdRef s0).
Proof.
  intros s.
  destruct (manager_run_ok ops Manager.initial) as [_ [_ Hall]].
  { cbn. lia. }
  { split; cbn; constructor. }
  fold s in Hall.
  destruct (trigger_spec a s) as (e & He & Hid & _). rewrite He.
  split; [|split; [|split; [|split; [|split; [|split]]]]]; try reflexivity.
  - cbn. rewrite filter_app. cbn. rewrite Hid, Z.eqb_refl. cbn.
    rewrite app_nil_r. apply filter_all. intros e' Hin.
    rewrite Forall_forall in Hall. specialize (Hall e' Hin).
    apply negb_true_iff, Z.eqb_neq. lia.
  - intros e'. cbn. rewrite filter_In, negb_true_iff, Z.eqb_neq. reflexivity.
  - unfold Manager.removeExplosion; cbn. f_equal.
    apply filter_all. intros e' He'. apply filter_In in He'. tauto.
  - intros Hnot. destruct s0; unfold Manager.removeExplosion; cbn in *.
    f_equal. apply filter_all. intros e' He'.
    apply negb_true_iff, Z.eqb_neq. intros Hk. apply Hnot.
    rewrite <- Hk. now apply in_map.
Qed.

Lemma remove_after_trigger_witness :
  let s0 := Manager.mkState
              [Manager.mkEntry 0 Vec.zero Vec.zero "SMALL" true (#(-5))%js] 1 in
  Manager.removeExplosion 7 s0 = s0.
Proof.
  intros s0.
  pose proof (remove_after_trigger []
                (Manager.mkArgs (inr [#0; #0; #0]%js) None None None None)
                s0 7) as H.
  cbn zeta in H. cbn [Manager.run snd Manager.triggerExplosion] in H.
  destruct H as (_ & _ & _ & _ & H & _).
  apply H. cbn. intros [H1 | []]. discriminate H1.
Defined.

(** X18.  [triggerExplosion] adds one entry at the end of the list and
    leaves the others as they are.  The entry's position is the same for a
    [Vector3] and for the array of its components (an array with fewer
    than three numbers is completed with zeros), and it is the position
    [ExplosionRenderer] hands to the [Explosion]; properties left out of the
    argument give forward vector (0, 0, -1), class MEDIUM, wreckage shown
    and ground height -5. *)
Theorem trigger_entry (a : Manager.Args) (s : Manager.State) (v : Vector3) :
  exists e : Manager.Entry,
    Manager.explosions (snd (Manager.triggerExplosion a s)) =
      Manager.explosions s ++ [e] /\
    Manager.id e = fst (Manager.triggerExplosion a s) /\
    Manager.position e = Manager.to_vector (Manager.a_position a) /\
    Explosion.position (Manager.renderer_props e) = Manager.position e /\
    Manager.to_vector (inr (Vec.toArray v)) = Manager.to_vector (inl v) /\
    Manager.to_vector (inr []) = Vec.zero /\
    (Manager.a_forwardVector a = None ->
     Manager.forwardVector e = mkVector3 (#0) (#0) (#(-1)))%js /\
    (Manager.a_explosionClass a = None -> Manager.explosionClass e = "MEDIUM") /\
    (Manager.a_showWreckage a = None -> Manager.showWreckage e = true) /\
    (Manager.a_groundY a = None -> Manager.groundY e = (#(-5))%js).
Proof.
  destruct (trigger_spec a s) as (e & He & Hid & Hp & Hf & Hc & Hw & Hg).
  exists e. rewrite He. cbn [fst snd Manager.explosions].
  split; [reflexivity|]. split; [exact Hid|]. split; [exact Hp|].
  split; [cbn; destruct (Manager.position e); reflexivity|].
  split; [destruct v; reflexivity|]. split; [reflexivity|].
  repeat split; intros Hn.
  - rewrite Hf, Hn. reflexivity.
  - rewrite Hc, Hn. reflexivity.
  - rewrite Hw, Hn. reflexivity.
  - rewrite Hg, Hn. reflexivity.
Qed.

Lemma trigger_entry_witness :
  exists e : Manager.Entry,
    Manager.explosions
      (snd (Manager.triggerExplosion
              (Manager.mkArgs (inr [#0; #0; #(-15)]%js) None None None None)
              Manager.initial)) = [e] /\
    Manager.explosionClass e = "MEDIUM".
Proof.
  destruct (trigger_entry
              (Manager.mkArgs (inr [#0; #0; #(-15)]%js) None None None None)
              Manager.initial Vec.zero)
    as (e & He & _ & _ & _ & _ & _ & _ & Hc & _).
  exists e. split; [exact He | apply Hc; reflexivity].
Defined.

(** ** [ShockwaveRing] *)

(** X19.  A shockwave ring whose timer has not fired has no mesh: frames
    leave it alone and never call [onComplete].  Once the timer has fired
    at clock reading [t0], with a finite positive duration [d], a frame
    calls [onComplete] exactly when [d] ms or more have passed since [t0],
    and then changes nothing; an earlier frame, at or after [t0], sets the
    ring's x and y scale to one number between 0.1 and [maxScale] (for a
    finite [maxScale >= 0.1]), its z scale to 1 and its opacity to a number
    in (0, 0.8]. *)
Theorem shockwave_ring_frames (now t0 : Z) (p : ShockwaveRing.Props)
  (s0 : ShockwaveRing.State) (d m : Q)
  (Hd : ShockwaveRing.duration p = JS.Fin d) (Hd0 : (0 < d)%Q)
  (Hm : ShockwaveRing.maxScale p = JS.Fin m) (Hm0 : (0.1 <= m)%Q)
  (Ht0 : t0 <> 0%Z) :
  let s := ShockwaveRing.timeout t0 s0 in
  ShockwaveRing.frame now p ShockwaveRing.mount = (ShockwaveRing.mount, false) /\
  (snd (ShockwaveRing.frame now p s) = true <-> (d <= inject_Z (now - t0))%Q) /\
  (snd (ShockwaveRing.frame now p s) = true ->
   fst (ShockwaveRing.frame now p s) = s) /\
  ((t0 <= now)%Z -> snd (ShockwaveRing.frame now p s) = false ->
   exists c o : Q,
     ShockwaveRing.mesh (fst (ShockwaveRing.frame now p s)) =
       Some (ShockwaveRing.mkMesh (mkVector3 (JS.Fin c) (JS.Fin c) (#1)%js)
               (JS.Fin o)) /\
     (0.1 <= c /\ c <= m)%Q /\ (0 < o /\ o <= 0.8)%Q).
Proof.
  intros s. split; [reflexivity|].
  assert (Hmesh : exists m0, ShockwaveRing.mesh s = Some m0).
  { subst s. cbn. destruct (ShockwaveRing.mesh s0); eauto. }
  destruct Hmesh as [m0 Hmesh].
  assert (Htr : ShockwaveRing.truthy_time (ShockwaveRing.startTime s) = Some t0).
  { subst s. cbn. destruct (Z.eqb_spec t0 0); [contradiction | reflexivity]. }
  assert (Hact : ShockwaveRing.active s = true) by reflexivity.
  destruct (ratio_bounds (inject_Z (now - t0)) d Hd0) as [H0 H1].
  unfold ShockwaveRing.frame. rewrite Hmesh, Hact, Htr, Hd, Hm.
  rewrite (millis_ratio_finite _ d Hd0).
  set (w := (inject_Z (now - t0) / d)%Q) in *.
  unfold JS.geb; cbn [JS.leb].
  destruct (Qle_bool 1 w) eqn:Hw.
  - apply Qle_bool_iff in Hw. cbn [fst snd].
    split; [split; [intros _; now apply H1 | reflexivity]|].
    split; [reflexivity | discriminate].
  - apply not_true_iff_false in Hw. rewrite Qle_bool_iff in Hw. cbn [fst snd].
    split; [split; [discriminate | intros Hge; apply H1 in Hge; contradiction]|].
    split; [discriminate|].
    intros Hnow _.
    assert (Hw0 : (0 <= w)%Q).
    { apply H0. change 0%Q with (inject_Z 0). rewrite <- Zle_Qle. lia. }
    assert (Hw1 : (w < 1)%Q) by lra.
    do 2 eexists. split; [reflexivity|].
    assert (Ha : (0 <= w * w)%Q) by (apply Qmult_le_0_compat; lra).
    assert (Hb : (0 < (1 - w) * (1 + w))%Q) by (apply Qmult_lt_0_compat; lra).
    assert (Hc : (0 <= w * (2 - w))%Q) by (apply Qmult_le_0_compat; lra).
    assert (He : (0 <= (1 - w) * (1 - w))%Q) by (apply Qmult_le_0_compat; lra).
    assert (Hf : (0 <= (w * (2 - w)) * (m - 0.1))%Q)
      by (apply Qmult_le_0_compat; lra).
    assert (Hg : (0 <= ((1 - w) * (1 - w)) * (m - 0.1))%Q)
      by (apply Qmult_le_0_compat; lra).
    repeat split; lra.
Qed.

Lemma shockwave_ring_frames_witness :
  let p := ShockwaveRing.mkProps Vec.zero (#3)%js (#400)%js 0 in
  let s := ShockwaveRing.timeout 1000 ShockwaveRing.mount in
  snd (ShockwaveRing.frame 1400 p s) = true.
Proof.
  intros p s.
  destruct (shockwave_ring_frames 1400 1000 p ShockwaveRing.mount 400 3
              eq_refl eq_refl eq_refl) as (_ & H & _).
  - discriminate.
  - discriminate.
  - apply H. discriminate.
Defined.

(** ** [ExplosionFlash] *)

(** X20.  With a finite positive duration [d], a flash calls [onComplete]
    in a frame exactly when [d] ms or more have passed since it was
    created, and then changes nothing.  In an earlier frame, at or after
    its creation, its opacity is set to a number in (0, 1] and its light
    intensity to a number in (0, 30]; and from a quarter of the duration on
    its scale is exactly the [scale] prop, whatever [Math.pow] returns. *)
Theorem flash_frames (pow2 : num -> num) (now : Z)
  (p : ExplosionFlash.Props) (s : ExplosionFlash.State) (d sc : Q)
  (Hd : ExplosionFlash.duration p = JS.Fin d) (Hd0 : (0 < d)%Q)
  (Hsc : ExplosionFlash.scale p = JS.Fin sc) :
  (snd (ExplosionFlash.frame pow2 now p s) = true <->
   (d <= inject_Z (now - ExplosionFlash.startTime s))%Q) /\
  (snd (ExplosionFlash.frame pow2 now p s) = true ->
   fst (ExplosionFlash.frame pow2 now p s) = s) /\
  ((ExplosionFlash.startTime s <= now)%Z ->
   snd (ExplosionFlash.frame pow2 now p s) = false ->
   exists o i : Q,
     ExplosionFlash.opacity (fst (ExplosionFlash.frame pow2 now p s)) = JS.Fin o /\
     ExplosionFlash.light_intensity (fst (ExplosionFlash.frame pow2 now p s))
       = JS.Fin i /\
     (0 < o /\ o <= 1)%Q /\ (0 < i /\ i <= 30)%Q /\
     ((d <= 4 * inject_Z (now - ExplosionFlash.startTime s))%Q ->
      ExplosionFlash.mesh_scale (fst (ExplosionFlash.frame pow2 now p s)) =
        Vec.setScalar (JS.Fin (sc * 1)))).
Proof.
  destruct (ratio_bounds (inject_Z (now - ExplosionFlash.startTime s)) d Hd0)
    as [H0 H1].
  assert (Hd' : ~ (d == 0)%Q) by lra.
  pose proof (Qmult_div_r (inject_Z (now - ExplosionFlash.startTime s)) d Hd')
    as Hmul.
  unfold ExplosionFlash.frame, ExplosionFlash.progress.
  rewrite Hd, Hsc, (millis_ratio_finite _ d Hd0).
  set (w := (inject_Z (now - ExplosionFlash.startTime s) / d)%Q) in *.
  unfold JS.geb; cbn [JS.leb].
  destruct (Qle_bool 1 w) eqn:Hw.
  - apply Qle_bool_iff in Hw. cbn [fst snd].
    split; [split; [intros _; now apply H1 | reflexivity]|].
    split; [reflexivity | discriminate].
  - apply not_true_iff_false in Hw. rewrite Qle_bool_iff in Hw. cbn [fst snd].
    split; [split; [discriminate | intros Hge; apply H1 in Hge; contradiction]|].
    split; [discriminate|].
    intros Hnow _.
    assert (Hw0 : (0 <= w)%Q).
    { apply H0. change 0%Q with (inject_Z 0). rewrite <- Zle_Qle. lia. }
    cbn [ExplosionFlash.opacity ExplosionFlash.light_intensity
         ExplosionFlash.mesh_scale].
    do 2 eexists. split; [reflexivity|]. split; [reflexivity|].
    assert (Ha : (0 <= w * w)%Q) by (apply Qmult_le_0_compat; lra).
    assert (Hb : (0 < (1 - w) * (1 + w))%Q) by (apply Qmult_lt_0_compat; lra).
    split; [lra|]. split; [lra|].
    intros Hq.
    assert (Hw4 : (1 <= w * 4)%Q).
    { assert (Hp : (0 <= d * (w * 4 - 1))%Q) by lra.
      destruct (Qlt_le_dec (w * 4) 1) as [Hlt | Hge]; [|exact Hge].
      assert (Hn : (0 < d * (1 - w * 4))%Q) by (apply Qmult_lt_0_compat; lra).
      lra. }
    f_equal. cbn [JS.mul JS.min JS.leb].
    destruct (Qle_bool (w * 4) 1) eqn:Hle.
    + apply Qle_bool_iff in Hle.
      assert (Heq : Qeq_bool (w * 4) 1 = true) by (apply Qeq_bool_iff; lra).
      unfold Easing.easeOutExpo. cbn [JS.eqb]. rewrite Heq. reflexivity.
    + reflexivity.
Qed.

Lemma flash_frames_witness :
  let p := ExplosionRender.flash_props CLASSES.SMALL in
  let s := ExplosionFlash.mount 1000 in
  snd (ExplosionFlash.frame (fun e => e) 1200 p s) = true.
Proof.
  intros p s.
  destruct (flash_frames (fun e => e) 1200 p s 200 (3 * 0.5)
              eq_refl eq_refl eq_refl) as (H & _).
  apply H. discriminate.
Defined.

(** ** [SmokeParticle] *)

Lemma product_between (z a b : Q) :
  (0 <= z)%Q -> (1 <= a /\ a <= 1.5)%Q -> (0.2 <= b /\ b <= 1)%Q ->
  (0.2 * z <= z * a * b /\ z * a * b <= 1.5 * z)%Q.
Proof.
  intros Hz [Ha1 Ha2] [Hb1 Hb2].
  assert (H1 : (0 <= z * (a - 1))%Q) by (apply Qmult_le_0_compat; lra).
  assert (H2 : (0 <= z * (1.5 - a))%Q) by (apply Qmult_le_0_compat; lra).
  assert (H3 : (0 <= (z * a) * (b - 0.2))%Q) by (apply Qmult_le_0_compat; lra).
  assert (H4 : (0 <= (z * a) * (1 - b))%Q) by (apply Qmult_le_0_compat; lra).
  split; lra.
Qed.

(** X21.  A smoke-trail particle whose render drew the finite positive
    lifetime [l] calls [onComplete] in a frame exactly when [1000 l] ms or
    more have passed since its creation, and then changes nothing.  In an
    earlier frame, at or after its creation, with a finite [size >= 0], its
    opacity is set to a number in (0, 0.6] and its scale to one number that
    is at least 0.01 and at least [0.2 * size], and at most [1.5 * size]
    unless it is the floor 0.01. *)
Theorem smoke_particle_frames (now : Z) (delta : num)
  (p : SmokeParticle.Props) (s : SmokeParticle.State) (l sz : Q)
  (Hl : (0 < l)%Q) (Hsz : SmokeParticle.size p = JS.Fin sz)
  (Hsz0 : (0 <= sz)%Q) :
  let out := SmokeParticle.frame now delta (JS.Fin l) p s in
  (snd out = true <->
   (l * 1000 <= inject_Z (now - SmokeParticle.startTime s))%Q) /\
  (snd out = true -> fst out = s) /\
  ((SmokeParticle.startTime s <= now)%Z -> snd out = false ->
   exists o c : Q,
     SmokeParticle.opacity (fst out) = JS.Fin o /\
     SmokeParticle.scale (fst out) = Vec.setScalar (JS.Fin c) /\
     (0 < o /\ o <= 0.6)%Q /\
     (0.01 <= c /\ 0.2 * sz <= c /\ (c <= 1.5 * sz \/ c == 0.01))%Q).
Proof.
  intros out. subst out.
  destruct (seconds_ratio_bounds (now - SmokeParticle.startTime s) l Hl)
    as [H0 H1].
  unfold SmokeParticle.frame, SmokeParticle.progress.
  rewrite Hsz, (seconds_ratio_finite _ l Hl).
  set (w := (inject_Z (now - SmokeParticle.startTime s) / 1000 / l)%Q) in *.
  unfold JS.geb; cbn [JS.leb].
  destruct (Qle_bool 1 w) eqn:Hw.
  - apply Qle_bool_iff in Hw. cbn [fst snd].
    split; [split; [intros _; now apply H1 | reflexivity]|].
    split; [reflexivity | discriminate].
  - apply not_true_iff_false in Hw. rewrite Qle_bool_iff in Hw. cbn [fst snd].
    split; [split; [discriminate | intros Hge; apply H1 in Hge; contradiction]|].
    split; [discriminate|].
    intros Hnow _. specialize (H0 ltac:(lia)).
    assert (Hgoal : forall gp sp : Q,
              (0 <= gp /\ gp <= 1)%Q -> (0 <= sp /\ sp <= 1)%Q ->
              exists o c : Q,
                (#0.6 * (#1 - JS.Fin w))%js = JS.Fin o /\
                Vec.setScalar
                  (JS.max (#0.01)%js
                     (JS.Fin sz * (#1 + JS.Fin gp * #0.5)
                      * (#1 - JS.Fin sp * #0.8))%js)
                = Vec.setScalar (JS.Fin c) /\
                (0 < o /\ o <= 0.6)%Q /\
                (0.01 <= c /\ 0.2 * sz <= c /\ (c <= 1.5 * sz \/ c == 0.01))%Q).
    { intros gp sp Hgp Hsp.
      destruct (product_between sz (1 + gp * 0.5) (1 - sp * 0.8) Hsz0)
        as [Hlo Hhi]; [lra | lra |].
      cbn [JS.mul JS.sub JS.add JS.max JS.leb].
      destruct (Qle_bool 0.01 (sz * (1 + gp * 0.5) * (1 - sp * 0.8))) eqn:Hc.
      + apply Qle_bool_iff in Hc. do 2 eexists.
        split; [reflexivity|]. split; [reflexivity|].
        split; [lra|]. split; [lra|]. split; [lra|]. left. lra.
      + apply not_true_iff_false in Hc. rewrite Qle_bool_iff in Hc.
        do 2 eexists. split; [reflexivity|]. split; [reflexivity|].
        split; [lra|]. split; [lra|]. split; [lra|]. right. reflexivity. }
    cbn [SmokeParticle.opacity SmokeParticle.scale].
    unfold JS.min, JS.max at 2. cbn [JS.mul JS.sub JS.leb].
    destruct (Qle_bool (w * 3) 1) eqn:E1;
      destruct (Qle_bool 0 ((w - 0.5) * 2)) eqn:E2;
      try (apply Qle_bool_iff in E1); try (apply Qle_bool_iff in E2);
      apply Hgoal; lra.
Qed.

Lemma smoke_particle_frames_witness :
  let p := SmokeParticle.mkProps Vec.zero (mkVector3 (#0) (#1) (#0))%js
             (#0.4)%js in
  let s := SmokeParticle.mount 1000 p in
  snd (SmokeParticle.frame 2000 (#0.016)%js (#1)%js p s) = true.
Proof.
  intros p s.
  destruct (smoke_particle_frames 2000 (#0.016)%js p s 1 0.4
              eq_refl eq_refl) as (H & _).
  - discriminate.
  - apply H. discriminate.
Defined.

(** ** [CameraShake]: the effect *)

(** X22.  The effect of [CameraShake] does nothing unless the intensity
    is above 0.  With an intensity above 0 it starts a shake from the
    camera's position of that moment, also when a shake is running and that
    position is a displaced one: the frame that ends the new shake puts the
    camera there, not at the position captured before. *)
Theorem camera_shake_effect (now now' : Z) (p : CameraShake.Props)
  (s : CameraShake.State) (g : Rng) :
  (JS.gtb (CameraShake.intensity p) (#0)%js = false ->
   CameraShake.effect now p s = s) /\
  (JS.gtb (CameraShake.intensity p) (#0)%js = true ->
   CameraShake.effect now p s =
     CameraShake.mkState (Some now) (Some (CameraShake.camera s))
       (CameraShake.camera s) /\
   (now <> 0%Z ->
    JS.geb (JS.of_Z (now' - now) / CameraShake.duration p)%js (#1)%js = true ->
    CameraShake.frame now' p (CameraShake.effect now p s) g =
      (CameraShake.mkState None (Some (CameraShake.camera s))
         (CameraShake.camera s), g))).
Proof.
  split; intros Hi; unfold CameraShake.effect; rewrite Hi; [reflexivity|].
  split; [reflexivity|].
  intros Hnow Hge.
  apply (frame_restoring now' p _ g now (CameraShake.camera s)).
  - cbn. destruct (Z.eqb_spec now 0); [contradiction | reflexivity].
  - reflexivity.
  - exact Hge.
Qed.

Lemma camera_shake_effect_witness :
  let p := CameraShake.mkProps (#0.5)%js (#500)%js in
  let shaken := CameraShake.mkState (Some 1000) (Some (mkVector3 (#0) (#8) (#20))%js)
                  (mkVector3 (#0.1) (#7.9) (#20))%js in
  CameraShake.camera
    (fst (CameraShake.frame 1800 p (CameraShake.effect 1200 p shaken)
            (mkRng (fun _ => 0.5%Q) 0)))
  = (mkVector3 (#0.1) (#7.9) (#20))%js.
Proof.
  intros p shaken.
  destruct (camera_shake_effect 1200 1800 p shaken (mkRng (fun _ => 0.5%Q) 0))
    as [_ H].
  destruct (H eq_refl) as [_ Hf]. rewrite Hf; [reflexivity | discriminate | reflexivity].
Defined.

(** ** The scene: explosions are collected when they complete *)

Lemma frame_instances_spec (now : Z) (l : list Scene.Instance) :
  forall m : Manager.State,
    Forall (fun i => Explosion.isComplete (Scene.state i) = false) l ->
    Scene.frame_instances now l m =
      (filter (fun i => negb (due now i)) l,
       fold_left (fun m i => if due now i
                             then Manager.removeExplosion (Scene.key i) m
                             else m) l m).
Proof.
  induction l as [|i l IH]; intros m Hall; [reflexivity|].
  inversion Hall as [|? ? Hi Hl]; subst.
  cbn [Scene.frame_instances filter fold_left].
  unfold Explosion.frame. rewrite Hi, Z.gtb_ltb, andb_true_r.
  fold (due now i).
  destruct (due now i); cbn [negb]; rewrite (IH _ Hl); [reflexivity|].
  destruct i; reflexivity.
Qed.

Lemma fold_remove_spec (now : Z) (l : list Scene.Instance) :
  forall m : Manager.State,
    fold_left (fun m i => if due now i
                          then Manager.removeExplosion (Scene.key i) m
                          else m) l m =
      Manager.mkState
        (filter (fun e => negb (due_key now l (Manager.id e)))
           (Manager.explosions m))
        (Manager.explosionIdRef m).
Proof.
  induction l as [|i l IH]; intros m; cbn [fold_left].
  - cbn. rewrite filter_all by reflexivity. destruct m; reflexivity.
  - rewrite IH. unfold due_key. cbn [existsb].
    destruct (due now i); cbn [Manager.removeExplosion Manager.explosions
                                 Manager.explosionIdRef].
    + f_equal. induction (Manager.explosions m) as [|e es IHes]; [reflexivity|].
      cbn [filter]. rewrite (Z.eqb_sym (Scene.key i) (Manager.id e)).
      destruct (Manager.id e =? Scene.key i)%Z; cbn [negb andb orb filter].
      * exact IHes.
      * destruct (negb _); [f_equal|]; exact IHes.
    + f_equal. apply filter_ext. intros e. now rewrite andb_false_r.
Qed.

Lemma due_key_unique (now : Z) (l : list Scene.Instance) :
  NoDup (map Scene.key l) ->
  forall i, In i l -> due_key now l (Scene.key i) = due now i.
Proof.
  induction l as [|j l IH]; intros Hnd i Hin; [contradiction|].
  cbn [map] in Hnd. inversion Hnd as [|? ? Hnot Hnd']; subst.
  unfold due_key. cbn [existsb]. fold (due_key now l (Scene.key i)).
  destruct Hin as [-> | Hin].
  - rewrite Z.eqb_refl. cbn [andb].
    destruct (due now i); [reflexivity|]. cbn [orb].
    unfold due_key. apply not_true_iff_false. intros H.
    apply existsb_exists in H. destruct H as (i' & Hi' & Hk).
    apply andb_true_iff in Hk. destruct Hk as [Hk _].
    apply Z.eqb_eq in Hk. apply Hnot. rewrite <- Hk. now apply in_map.
  - destruct (Z.eqb_spec (Scene.key j) (Scene.key i)) as [Heq | Hne].
    + exfalso. apply Hnot. rewrite Heq. now apply in_map.
    + cbn [andb orb]. now apply IH.
Qed.

Lemma filter_lockstep (P : Scene.Instance -> bool) (Q : Manager.Entry -> bool)
  (l : list Scene.Instance) :
  forall es : list Manager.Entry,
    map Scene.key l = map Manager.id es ->
    (forall i e, In i l -> Manager.id e = Scene.key i -> Q e = P i) ->
    map Scene.key (filter P l) = map Manager.id (filter Q es).
Proof.
  induction l as [|i l IH]; intros es Hmap HPQ; destruct es as [|e es];
    try discriminate; [reflexivity|].
  cbn [map] in Hmap. injection Hmap as Hk Hmap.
  cbn [filter]. rewrite (HPQ i e (or_introl eq_refl) (eq_sym Hk)).
  destruct (P i); cbn [map]; [f_equal; [exact Hk|]|];
    (apply IH; [exact Hmap | intros i' e' Hi'; apply HPQ; now right]).
Qed.

Lemma scene_ok_frame (now : Z) (s : Scene.State) :
  scene_ok s -> scene_ok (Scene.frame now s).
Proof.
  intros (Hmirror & Hinc & Hok & H0).
  unfold Scene.frame. rewrite (frame_instances_spec now _ _ Hinc).
  rewrite fold_remove_spec. unfold scene_ok.
  cbn [Scene.manager Scene.instances Manager.explosions Manager.explosionIdRef].
  split; [|split; [|split]].
  - apply filter_lockstep; [exact Hmirror|].
    intros i e Hi He. rewrite He. f_equal.
    apply due_key_unique; [|exact Hi].
    rewrite Hmirror. apply Hok.
  - rewrite Forall_forall in *. intros i Hi. apply filter_In in Hi.
    apply Hinc. tauto.
  - destruct Hok as [Hnd Hall]. split; cbn.
    + now apply NoDup_map_filter.
    + rewrite Forall_forall in *. intros e He. apply filter_In in He.
      apply Hall. tauto.
  - exact H0.
Qed.

Lemma mount_instance_fresh normalize (now : Z) (g : Rng) (e : Manager.Entry) :
  Scene.key (Scene.mount_instance normalize now g e) = Manager.id e /\
  Explosion.isComplete (Scene.state (Scene.mount_instance normalize now g e))
    = false /\
  Explosion.startTime (Scene.state (Scene.mount_instance normalize now g e))
    = now /\
  Explosion.explosionClass (Scene.props (Scene.mount_instance normalize now g e))
    = Manager.explosionClass e.
Proof.
  unfold Scene.mount_instance. cbn [Scene.key Scene.state Scene.props].
  rewrite init_fields. repeat split.
Qed.

Lemma filter_below (r : Z) (es : list Manager.Entry) :
  Forall (fun e => (0 <= Manager.id e < r)%Z) es ->
  filter (fun e => (Manager.id e =? r)%Z) es = [].
Proof.
  induction 1 as [|e es He Hes IH]; [reflexivity|]. cbn [filter].
  destruct (Z.eqb_spec (Manager.id e) r); [lia | exact IH].
Qed.

Lemma trigger_scene_spec normalize (now : Z) (g : Rng) (a : Manager.Args)
  (s : Scene.State) :
  scene_ok s ->
  exists e : Manager.Entry,
    Manager.triggerExplosion a (Scene.manager s) =
      (Manager.explosionIdRef (Scene.manager s),
       Manager.mkState (Manager.explosions (Scene.manager s) ++ [e])
         (Manager.explosionIdRef (Scene.manager s) + 1)) /\
    Manager.id e = Manager.explosionIdRef (Scene.manager s) /\
    Manager.explosionClass e =
      Manager.default (Manager.a_explosionClass a) "MEDIUM" /\
    Scene.trigger normalize now g a s =
      (Manager.explosionIdRef (Scene.manager s),
       Scene.mkState
         (Manager.mkState (Manager.explosions (Scene.manager s) ++ [e])
            (Manager.explosionIdRef (Scene.manager s) + 1))
         (Scene.instances s ++ [Scene.mount_instance normalize now g e])).
Proof.
  intros (_ & _ & [_ Hall] & _).
  destruct (trigger_spec a (Scene.manager s)) as (e & He & Hid & _ & _ & Hc & _).
  exists e. split; [exact He|]. split; [exact Hid|]. split; [exact Hc|].
  unfold Scene.trigger. rewrite He. cbn [Manager.explosions].
  rewrite filter_app. cbn [filter]. rewrite Hid, Z.eqb_refl.
  rewrite (filter_below _ _ Hall). reflexivity.
Qed.

Lemma scene_ok_trigger normalize (now : Z) (g : Rng) (a : Manager.Args)
  (s : Scene.State) :
  scene_ok s -> scene_ok (snd (Scene.trigger normalize now g a s)).
Proof.
  intros Hs.
  destruct (trigger_scene_spec normalize now g a s Hs)
    as (e & He & Hid & _ & Ht).
  destruct Hs as (Hmirror & Hinc & Hok & H0).
  pose proof (manager_ok_trigger a _ H0 Hok) as Hok'.
  rewrite He in Hok'. cbn [snd] in Hok'.
  rewrite Ht. unfold scene_ok.
  cbn [snd Scene.manager Scene.instances Manager.explosions
       Manager.explosionIdRef].
  destruct (mount_instance_fresh normalize now g e) as (Hk & Hc & _).
  split; [|split; [|split]].
  - rewrite !map_app, Hmirror. cbn [map]. now rewrite Hk.
  - apply Forall_app. split; [exact Hinc | constructor; [exact Hc | constructor]].
  - exact Hok'.
  - lia.
Qed.

Lemma scene_ok_remove (id0 : Z) (s : Scene.State) :
  scene_ok s -> scene_ok (Scene.remove id0 s).
Proof.
  intros (Hmirror & Hinc & Hok & H0). unfold scene_ok, Scene.remove.
  cbn [Scene.manager Scene.instances Manager.removeExplosion
       Manager.explosions Manager.explosionIdRef].
  split; [|split; [|split]].
  - apply filter_lockstep; [exact Hmirror|].
    intros i e _ He. now rewrite He.
  - rewrite Forall_forall in *. intros i Hi. apply filter_In in Hi.
    apply Hinc. tauto.
  - apply (manager_ok_remove id0 _ Hok).
  - exact H0.
Qed.

Lemma scene_run_ok normalize (ops : list Scene.Op) :
  forall s : Scene.State, scene_ok s -> scene_ok (Scene.run normalize ops s).
Proof.
  induction ops as [|op ops IH]; intros s Hs; [exact Hs|].
  cbn [Scene.run fold_left]. apply IH.
  destruct op as [now g a | now | id0 |]; cbn [Scene.step].
  - now apply scene_ok_trigger.
  - now apply scene_ok_frame.
  - now apply scene_ok_remove.
  - destruct Hs as (_ & _ & _ & H0).
    repeat split; cbn; try constructor; exact H0.
Qed.

Lemma scene_initial_ok : scene_ok Scene.initial.
Proof. repeat split; cbn; try constructor; lia. Qed.

(** X23.  After any sequence of triggers, frames, removals and clears on a
    fresh scene, the explosions that are rendered are exactly those of the
    manager's list, in its order and with its ids as keys; none of them is
    complete; and the ids are pairwise distinct. *)
Theorem scene_mirrors_manager (normalize : Vector3 -> Vector3)
  (ops : list Scene.Op) :
  let s := Scene.run normalize ops Scene.initial in
  map Scene.key (Scene.instances s) =
    map Manager.id (Manager.explosions (Scene.manager s)) /\
  Forall (fun i => Explosion.isComplete (Scene.state i) = false)
    (Scene.instances s) /\
  NoDup (map Scene.key (Scene.instances s)).
Proof.
  intros s.
  destruct (scene_run_ok normalize ops _ scene_initial_ok)
    as (Hmirror & Hinc & [Hnd _] & _).
  fold s in Hmirror, Hinc, Hnd.
  split; [exact Hmirror|]. split; [exact Hinc|]. now rewrite Hmirror.
Qed.





(** ** Keys of the smoke trail and of the secondary explosions *)

Lemma sorted_snoc (l : list Q) (a : Q) :
  StronglySorted Qlt l -> Forall (fun q => (q < a)%Q) l ->
  StronglySorted Qlt (l ++ [a]).
Proof.
  induction 1 as [|b l Hs IH Hb]; intros Hall; cbn.
  - repeat constructor.
  - inversion Hall as [|? ? Hba Hl]; subst. constructor; [now apply IH|].
    apply Forall_app. split; [exact Hb | repeat constructor; exact Hba].
Qed.

Lemma smoke_ids_ok_frame (now : Z) (delta : num)
  (p : FallingWreckage.Props) (s : FallingWreckage.State) (g : Rng) :
  unit_interval (tape g) -> smoke_ids_ok s ->
  smoke_ids_ok (fst (fst (FallingWreckage.frame now delta p s g))).
Proof.
  intros Hunit (ids & Hids & Hsort & Hbelow).
  destruct (FallingWreckage.hasLanded s) eqn:Hl.
  - rewrite (frame_landed p now delta s g Hl). exists ids. auto.
  - rewrite (wreckage_frame_spec now delta p s g Hl).
    cbn [fst]. unfold smoke_ids_ok.
    cbn [FallingWreckage.smokeParticles FallingWreckage.lastSmokeTime].
    destruct (Z.ltb_spec 30 (now - FallingWreckage.lastSmokeTime s)) as [Hgt | Hle].
    + destruct (Hunit (3 + cursor g)%nat) as [Hr0 Hr1].
      exists (ids ++ [inject_Z now + tape g (3 + cursor g)%nat])%Q.
      assert (Hlast : (inject_Z (FallingWreckage.lastSmokeTime s) + 31
                       <= inject_Z now)%Q).
      { change 31%Q with (inject_Z 31). rewrite <- inject_Z_plus, <- Zle_Qle. lia. }
      split; [|split].
      * rewrite !map_app, Hids. reflexivity.
      * apply sorted_snoc; [exact Hsort|].
        eapply Forall_impl; [|exact Hbelow]. intros q Hq. cbn beta in Hq. lra.
      * apply Forall_app. split.
        -- eapply Forall_impl; [|exact Hbelow]. intros q Hq. cbn beta in *. lra.
        -- constructor; [lra | constructor].
    + exists ids. rewrite app_nil_r. auto.
Qed.

Lemma smoke_ids_ok_run (ticks : list FallingWreckage.Tick)
  (p : FallingWreckage.Props) :
  Forall (fun t => unit_interval (tape (snd t))) ticks ->
  forall s : FallingWreckage.State,
    smoke_ids_ok s -> smoke_ids_ok (fst (FallingWreckage.run ticks p s)).
Proof.
  induction 1 as [|[[now delta] g] rest Hg Hrest IH]; intros s Hs; cbn;
    [exact Hs|].
  pose proof (smoke_ids_ok_frame now delta p s g Hg Hs) as H1.
  destruct (fst (FallingWreckage.frame now delta p s g)) as [s1 hits].
  cbn [fst] in H1. specialize (IH s1 H1).
  destruct (FallingWreckage.run rest p s1). exact IH.
Qed.

(** Removing by a key of a strictly increasing list of finite keys takes
    out one element. *)
Lemma filter_out_sorted {A} (key : A -> num) (l : list A) (ids : list Q) :
  map key l = map JS.Fin ids -> StronglySorted Qlt ids ->
  forall a : A, In a l ->
    List.length (filter (fun b => negb (JS.eqb (key b) (key a))) l)
    = pred (List.length l).
Proof.
  revert ids. induction l as [|b l IH]; intros ids Hmap Hsort a Hin;
    [contradiction|].
  destruct ids as [|q ids]; [discriminate|].
  cbn [map] in Hmap. injection Hmap as Hb Hmap.
  inversion Hsort as [|? ? Hs Hq]; subst.
  assert (Hrest : forall c, In c l -> exists r, key c = JS.Fin r /\ (q < r)%Q).
  { intros c Hc. apply (in_map key) in Hc. rewrite Hmap in Hc.
    apply in_map_iff in Hc. destruct Hc as (r & Hr & Hin').
    exists r. split; [now symmetry|].
    rewrite Forall_forall in Hq. now apply Hq. }
  cbn [filter List.length pred].
  destruct Hin as [-> | Hin].
  - rewrite Hb. cbn [JS.eqb].
    assert (Hqq : Qeq_bool q q = true) by (apply Qeq_bool_iff; reflexivity).
    rewrite Hqq. cbn [negb].
    apply (f_equal (@List.length A)). apply filter_all.
    intros c Hc. destruct (Hrest c Hc) as (r & Hr & Hlt). rewrite Hr.
    cbn [JS.eqb]. apply negb_true_iff, not_true_iff_false.
    intros E. apply Qeq_bool_iff in E. lra.
  - destruct (Hrest a Hin) as (r & Hr & Hlt). rewrite Hb, Hr. cbn [JS.eqb].
    assert (Hne : Qeq_bool q r = false).
    { apply not_true_iff_false. intros E. apply Qeq_bool_iff in E. lra. }
    rewrite Hne. cbn [negb List.length].
    rewrite <- Hr, (IH ids Hmap Hs a Hin).
    destruct l; [contradiction | reflexivity].
Qed.

(** X26.  With [Math.random()] in [0, 1) at every frame, the smoke records
    of a wreckage piece have finite ids that increase strictly along the
    list, over any sequence of frames from its first render on: no two
    records share an id, and [removeSmoke] with the id of a record of the
    list takes out that record and no other. *)
Theorem smoke_ids_distinct (ticks : list FallingWreckage.Tick)
  (p : FallingWreckage.Props) (velocity0 rotationSpeed0 : Vector3)
  (Hunit : Forall (fun t => unit_interval (tape (snd t))) ticks) :
  let s := fst (FallingWreckage.run ticks p
                  (FallingWreckage.mounted p velocity0 rotationSpeed0)) in
  (exists ids : list Q,
     map FallingWreckage.smoke_id (FallingWreckage.smokeParticles s)
       = map JS.Fin ids /\
     StronglySorted Qlt ids) /\
  (forall sm : FallingWreckage.Smoke,
     In sm (FallingWreckage.smokeParticles s) ->
     List.length
       (FallingWreckage.smokeParticles
          (FallingWreckage.removeSmoke (FallingWreckage.smoke_id sm) s))
     = pred (List.length (FallingWreckage.smokeParticles s))).
Proof.
  intros s.
  assert (H0 : smoke_ids_ok (FallingWreckage.mounted p velocity0 rotationSpeed0)).
  { exists []. repeat split; constructor. }
  destruct (smoke_ids_ok_run ticks p Hunit _ H0) as (ids & Hids & Hsort & _).
  fold s in Hids. split; [exists ids; auto|].
  intros sm Hin. cbn [FallingWreckage.removeSmoke FallingWreckage.smokeParticles].
  exact (filter_out_sorted FallingWreckage.smoke_id _ ids Hids Hsort sm Hin).
Qed.

Lemma smoke_ids_distinct_witness :
  let p := FallingWreckage.mkProps Vec.zero
             (mkVector3 (#0) (#0) (#(-1)))%js [#0.4; #0.25; #0.6]%js
             (#(-5))%js in
  let g := mkRng (fun _ => 0.5%Q) 0 in
  let s := fst (FallingWreckage.run
                  [(1000, #0.016, g); (1016, #0.016, g); (1033, #0.016, g)]%js p
                  (FallingWreckage.mounted p (mkVector3 (#0) (#3) (#(-5)))%js
                     (mkVector3 (#2) (#2) (#2))%js)) in
  exists ids : list Q,
    map FallingWreckage.smoke_id (FallingWreckage.smokeParticles s)
      = map JS.Fin ids /\
    StronglySorted Qlt ids.
Proof.
  intros p g s.
  apply (smoke_ids_distinct
           [(1000, #0.016, g); (1016, #0.016, g); (1033, #0.016, g)]%js p
           (mkVector3 (#0) (#3) (#(-5)))%js (mkVector3 (#2) (#2) (#2))%js).
  assert (Hg : unit_interval (tape g))
    by (intros n; cbn; split; [discriminate | reflexivity]).
  repeat (constructor; [exact Hg|]). constructor.
Defined.

(** X27.  With [Math.random()] in [0, 1), [handleWreckageGroundHit] adds,
    at the end of the list, one secondary record at the hit position with
    a finite id from [now] to [now + 1].  When no earlier record has the id
    of the new one, the [onComplete] of its explosion gives back the list
    as it was before; and a second call of that [onComplete] changes
    nothing. *)
Theorem secondary_record_lifecycle (now : Z) (hit : Vector3)
  (s : Explosion.State) (g : Rng) (Hunit : unit_interval (tape g)) :
  exists (exp : Explosion.SecondaryRecord) (i : Q),
    Explosion.secondaryExplosions
      (fst (Explosion.handleWreckageGroundHit now hit s g))
      = Explosion.secondaryExplosions s ++ [exp] /\
    Explosion.e_position exp = hit /\
    Explosion.e_id exp = JS.Fin i /\
    (inject_Z now <= i /\ i <= inject_Z now + 1)%Q /\
    (Forall (fun e => JS.eqb (Explosion.e_id e) (Explosion.e_id exp) = false)
       (Explosion.secondaryExplosions s) ->
     Explosion.secondaryExplosions
       (ExplosionRender.secondary_complete exp
          (fst (Explosion.handleWreckageGroundHit now hit s g)))
     = Explosion.secondaryExplosions s) /\
    (forall s1 : Explosion.State,
       ExplosionRender.secondary_complete exp
         (ExplosionRender.secondary_complete exp s1)
       = ExplosionRender.secondary_complete exp s1).
Proof.
  destruct (Hunit (cursor g)) as [H0 H1].
  do 2 eexists. split; [reflexivity|]. split; [reflexivity|].
  split; [reflexivity|]. split; [lra|]. split.
  - intros Hall. cbn [ExplosionRender.secondary_complete
                        Explosion.secondaryExplosions fst
                        Explosion.handleWreckageGroundHit].
    unfold Explosion.handleWreckageGroundHit, bind, Math_random, ret.
    cbn [fst Explosion.secondaryExplosions Explosion.e_id].
    rewrite filter_app. cbn [filter Explosion.e_id JS.add JS.of_Z JS.eqb].
    assert (Hq : forall q, Qeq_bool q q = true)
      by (intros q; apply Qeq_bool_iff; reflexivity).
    rewrite Hq. cbn [negb]. rewrite app_nil_r.
    apply filter_all. intros e He. rewrite Forall_forall in Hall.
    specialize (Hall e He). cbn [Explosion.e_id JS.add JS.of_Z] in Hall.
    now rewrite Hall.
  - intros s1. unfold ExplosionRender.secondary_complete.
    cbn [Explosion.particles Explosion.shockwaves Explosion.wreckage
         Explosion.flash Explosion.secondaryExplosions
         Explosion.chainExplosions_ Explosion.isComplete Explosion.startTime
         Explosion.particleIdCounter].
    f_equal. apply filter_all. intros e He. apply filter_In in He. tauto.
Qed.

Lemma secondary_record_lifecycle_witness :
  exists (exp : Explosion.SecondaryRecord) (i : Q),
    Explosion.secondaryExplosions
      (fst (Explosion.handleWreckageGroundHit 2000 Vec.zero (Explosion.mount 0)
              (mkRng (fun _ => 0.5%Q) 0)))
      = Explosion.secondaryExplosions (Explosion.mount 0) ++ [exp] /\
    Explosion.e_position exp = Vec.zero /\
    Explosion.e_id exp = JS.Fin i /\
    (inject_Z 2000 <= i /\ i <= inject_Z 2000 + 1)%Q.
Proof.
  destruct (secondary_record_lifecycle 2000 Vec.zero (Explosion.mount 0)
              (mkRng (fun _ => 0.5%Q) 0)) as (exp & i & H1 & H2 & H3 & H4 & _).
  - intros n. cbn. split; [discriminate | reflexivity].
  - exists exp, i. auto.
Defined.

(** ** Completion of an explosion between renders *)

(** X28.  The [isComplete] flag of an explosion is never reset, whatever
    frames and renders follow.  Once a render has read the flag as set, no
    frame calls [onComplete] or changes anything.  With a render after
    every frame [onComplete] is called at most once.  Frames that follow
    one another with no render in between each call [onComplete] if their
    clock reading is past [startTime + duration + 3000]. *)
Theorem completion_between_renders (cfg : ClassConfig) (s : Explosion.State) :
  (forall (events : list Explosion.Event) (seen : bool),
     Explosion.isComplete s = true ->
     Explosion.isComplete (fst (Explosion.run events cfg seen s)) = true) /\
  (forall events : list Explosion.Event,
     Explosion.isComplete s = true ->
     Explosion.run events cfg true s = (s, O)) /\
  (forall ticks : list Z,
     (snd (Explosion.run
             (flat_map (fun now => [Explosion.OnFrame now; Explosion.OnRender])
                ticks)
             cfg (Explosion.isComplete s) s) <= 1)%nat) /\
  (forall ticks : list Z,
     snd (Explosion.run (map Explosion.OnFrame ticks) cfg false s) =
     List.length
       (filter (fun now =>
                  (duration cfg + 3000 <? now - Explosion.startTime s)%Z)
          ticks)).
Proof.
  split; [|split; [|split]].
  - intros events seen Hc. now apply run_keeps_complete.
  - intros events Hc. now apply run_complete_stays.
  - intros ticks. apply run_rendered_at_most_once.
  - intros ticks. apply run_frames_unrendered.
Qed.

Lemma completion_between_renders_witness :
  let s := Explosion.with_isComplete true (Explosion.mount 0) in
  Explosion.run
    [Explosion.OnFrame 5000; Explosion.OnRender; Explosion.OnFrame 6000]
    CLASSES.SMALL true s = (s, O).
Proof.
  intros s.
  destruct (completion_between_renders CLASSES.SMALL s) as (_ & H & _).
  apply H. reflexivity.
Defined.
